(** * nanoflann random-cloud benchmark (benchmarkTool/randomTests/nanoflann_testRandom.cpp)

    A shallow embedding of the benchmark harness: the [PointCloud] dataset
    class, the random cloud generator, one timed repetition ([kdtree_demo])
    and the sweep-and-print driver ([main]).

    Numbers are IEEE-754 binary floating-point values (the harness
    instantiates its templates at [float] and keeps its timers in [double]),
    taken from the Standard Library's executable specification [SpecFloat].
    The C library ([srand], [rand], [time], [clock]), the stream formatting
    of a [double] and the kd-tree index of nanoflann.hpp are the environment:
    the harness only sees the numbers they return, the processor time they
    take and the exceptions they raise. *)

From Stdlib Require Import ZArith NArith String Ascii QArith Qabs.
From Stdlib Require Import Floats.SpecFloat.
From stdpp Require Import base tactics option list.

Local Open Scope Z_scope.

(** ** Numeric types *)

(** What the templates ask of their numeric parameter [T]: value
    initialisation [T()], conversion from an integer, and the four
    arithmetic operators. *)
Class Numeric (T : Type) := {
  num_zero : T;
  num_of_int : Z → T;
  num_add : T → T → T;
  num_sub : T → T → T;
  num_mul : T → T → T;
  num_div : T → T → T
}.

(** A binary floating-point format with [prec] bits of mantissa and
    exponent bound [emax]; operations round to nearest, ties to even. *)
Record binary (prec emax : Z) := Bin { bits : spec_float }.
Arguments Bin {prec emax} bits.
Arguments bits {prec emax} _.

Section Binary.
Context {prec emax : Z}.
Abbreviation fp := (binary prec emax).

Definition b_of_Z (n : Z) : fp := Bin (binary_normalize prec emax n 0 false).
Definition b_zero : fp := Bin (S754_zero false).
Definition b_nan : fp := Bin S754_nan.
Definition b_add (a b : fp) : fp := Bin (SFadd prec emax (bits a) (bits b)).
Definition b_sub (a b : fp) : fp := Bin (SFsub prec emax (bits a) (bits b)).
Definition b_mul (a b : fp) : fp := Bin (SFmul prec emax (bits a) (bits b)).
Definition b_div (a b : fp) : fp := Bin (SFdiv prec emax (bits a) (bits b)).

(** The comparisons [a == b], [a < b] and [a <= b] of the language
    (all false on a NaN). *)
Definition b_eqb (a b : fp) : bool := SFeqb (bits a) (bits b).
Definition b_ltb (a b : fp) : bool := SFltb (bits a) (bits b).
Definition b_leb (a b : fp) : bool := SFleb (bits a) (bits b).

Definition b_max : fp := Bin (SFmax_float prec emax).

(** The exact rational value of a finite number (0 for the others). *)
Definition b_to_Q (a : fp) : Q :=
  match bits a with
  | S754_finite s m e =>
      let v := if s then Z.neg m else Z.pos m in
      match e with
      | Z.neg p => Qmake v (2 ^ p)
      | _ => inject_Z (v * 2 ^ e)
      end
  | _ => 0%Q
  end.

#[export] Instance binary_numeric : Numeric fp := {|
  num_zero := b_zero;
  num_of_int := b_of_Z;
  num_add := b_add;
  num_sub := b_sub;
  num_mul := b_mul;
  num_div := b_div
|}.
End Binary.

(** [float] is binary32 and [double] is binary64. *)
Abbreviation float := (binary 24 128).
Abbreviation double := (binary 53 1024).

Infix "+d" := (b_add (prec:=53) (emax:=1024)) (at level 50, left associativity).
Infix "/d" := (b_div (prec:=53) (emax:=1024)) (at level 40, left associativity).

(** Conversions of a [clock_t] difference and of a [size_t] to [double]. *)
Definition double_of_Z (n : Z) : double := b_of_Z n.
Definition double_of_size (n : N) : double := b_of_Z (Z.of_N n).

(** ** The dataset class *)

Record Point (T : Type) := { x : T; y : T; z : T }.
Arguments x {T} _.
Arguments y {T} _.
Arguments z {T} _.

Record PointCloud (T : Type) := { pts : list (Point T) }.
Arguments pts {T} _.

Section Dataset.
Context {T : Type} `{Numeric T}.

(** [Point()]: the value a resized vector is filled with. *)
Definition Point_default : Point T :=
  {| x := num_zero; y := num_zero; z := num_zero |}.

#[export] Instance Point_inhabited : Inhabited (Point T) :=
  populate Point_default.
#[export] Instance Numeric_inhabited : Inhabited T := populate num_zero.

Definition kdtree_get_point_count (c : PointCloud T) : nat := length (pts c).

(** [p1] is the caller's coordinate array; the last argument is the
    unused [size]. Reads are [operator[]]: unchecked, so only in-range
    indices have a meaning ([!!!] reads the default value elsewhere). *)
Definition kdtree_distance (c : PointCloud T) (p1 : list T) (idx_p2 : nat)
    (size : N) : T :=
  let d0 := num_sub (p1 !!! 0%nat) (x (pts c !!! idx_p2)) in
  let d1 := num_sub (p1 !!! 1%nat) (y (pts c !!! idx_p2)) in
  let d2 := num_sub (p1 !!! 2%nat) (z (pts c !!! idx_p2)) in
  num_add (num_add (num_mul d0 d0) (num_mul d1 d1)) (num_mul d2 d2).

Definition kdtree_get_pt (c : PointCloud T) (idx : nat) (dim : Z) : T :=
  if dim =? 0 then x (pts c !!! idx)
  else if dim =? 1 then y (pts c !!! idx)
  else z (pts c !!! idx).

Definition kdtree_get_bbox {BBOX : Type} (c : PointCloud T) (bb : BBOX) : bool :=
  false.

(** The squared Euclidean distance as the glossary words it: the sum,
    over the axes, of the squared coordinate differences. The sum of a
    non-empty list of terms adds them from the left. *)
Definition sum_terms (ts : list T) : T :=
  match ts with
  | [] => num_zero
  | t :: ts' => foldl num_add t ts'
  end.

Definition squared_difference (a b : T) : T :=
  num_mul (num_sub a b) (num_sub a b).

Definition squared_euclidean (c : PointCloud T) (p1 : list T) (idx : nat) : T :=
  sum_terms
    (map (λ axis : nat,
            squared_difference (p1 !!! axis) (kdtree_get_pt c idx (Z.of_nat axis)))
         [0; 1; 2]%nat).
End Dataset.

(** ** The environment and the state of a run *)

(** The exceptions of the C++ standard library that can leave a call. *)
Inductive exn := invalid_argument | runtime_error | bad_alloc.

(** How a call ends: it returns a value or an exception propagates. *)
Inductive exit (A : Type) :=
  | Normal (a : A)
  | Raise (e : exn).
Arguments Normal {A} a.
Arguments Raise {A} e.

(** The index object [my_kd_tree_t index(3, cloudS, Params(10))]: its
    constructor records the dimension, a reference to the dataset and the
    maximum leaf size. *)
Record KDTreeSingleIndexAdaptor (T : Type) := {
  index_dim : Z;
  dataset : PointCloud T;
  leaf_max_size : Z
}.
Arguments index_dim {T} _.
Arguments dataset {T} _.
Arguments leaf_max_size {T} _.

(** The calls that leave the harness, in the order they happen. *)
Inductive event (T : Type) :=
  | EvSrand (s : Z)
  | EvRand (r : Z)
  | EvClock (t : Z)
  | EvBuildIndex (index : KDTreeSingleIndexAdaptor T)
  | EvFindNeighbors (index : KDTreeSingleIndexAdaptor T) (num_results : N)
      (query_pt : list T) (checks : Z).
Arguments EvSrand {T} s.
Arguments EvRand {T} r.
Arguments EvClock {T} t.
Arguments EvBuildIndex {T} index.
Arguments EvFindNeighbors {T} index num_results query_pt checks.

(** What the platform and the index library decide:
    - [rand_seq s] is the sequence of values [rand()] returns after
      [srand(s)];
    - [time_now] is what [time(NULL)] returns;
    - [lib_ticks h] is the processor time, in clock ticks, taken by the
      library call that ends the history [h], and [lib_fault h] the
      exception it raises, if any;
    - [show_double] is the text [operator<<] writes for a [double]. *)
Record Env (T : Type) := {
  rand_seq : Z → nat → Z;
  time_now : Z;
  CLOCKS_PER_SEC : Z;
  lib_ticks : list (event T) → Z;
  lib_fault : list (event T) → option exn;
  show_double : double → string
}.
Arguments rand_seq {T} _ _ _.
Arguments time_now {T} _.
Arguments CLOCKS_PER_SEC {T} _.
Arguments lib_ticks {T} _ _.
Arguments lib_fault {T} _ _.
Arguments show_double {T} _ _.

Record world (T : Type) := {
  seed : Z;                 (* the seed of the last srand *)
  rand_pos : nat;           (* how many draws were taken since *)
  now : Z;                  (* processor time used so far, in ticks *)
  trace : list (event T);   (* the calls made so far, oldest first *)
  out : string              (* what was written to std::cout *)
}.
Arguments seed {T} _.
Arguments rand_pos {T} _.
Arguments now {T} _.
Arguments trace {T} _.
Arguments out {T} _.

(** ** The monad of the harness: state and exceptions *)

Definition M (T A : Type) : Type := world T → exit A * world T.

#[export] Instance M_ret {T} : MRet (M T) := λ A a w, (Normal a, w).
#[export] Instance M_bind {T} : MBind (M T) := λ A B f m w,
  match m w with
  | (Normal a, w') => f a w'
  | (Raise e, w') => (Raise e, w')
  end.

(** [for (size_t i = 0; i < n; i++) body]; [s] is what the body updates. *)
Fixpoint for_from {T St : Type} (i n : nat) (body : nat → St → M T St) (s : St)
    : M T St :=
  match n with
  | O => mret s
  | S n' => s' ← body i s; for_from (S i) n' body s'
  end.

Definition for_loop {T St : Type} (n : nat) (body : nat → St → M T St) (s : St)
    : M T St :=
  for_from 0 n body s.

Definition newline : string := String "010"%char EmptyString.

Section Harness.
Context {T : Type} `{Numeric T}.
Variable env : Env T.

Definition log (e : event T) (w : world T) : world T :=
  {| seed := seed w; rand_pos := rand_pos w; now := now w;
     trace := trace w ++ [e]; out := out w |}.

Definition time_ : M T Z := λ w, (Normal (time_now env), w).

Definition srand (s : Z) : M T unit := λ w,
  (Normal tt,
   {| seed := s; rand_pos := 0; now := now w;
      trace := trace w ++ [EvSrand s]; out := out w |}).

Definition rand : M T Z := λ w,
  let r := rand_seq env (seed w) (rand_pos w) in
  (Normal r,
   {| seed := seed w; rand_pos := S (rand_pos w); now := now w;
      trace := trace w ++ [EvRand r]; out := out w |}).

(** [clock()] reads the processor time used so far. *)
Definition clock : M T Z := λ w, (Normal (now w), log (EvClock (now w)) w).

(** A call into nanoflann.hpp: it takes processor time and either
    returns or raises. Processor time is charged to these calls only: an
    interval between two clock readings is the time of the library calls
    made in between. *)
Definition lib_call (e : event T) : M T unit := λ w,
  let h := trace w ++ [e] in
  let w' := {| seed := seed w; rand_pos := rand_pos w;
               now := now w + lib_ticks env h;
               trace := h; out := out w |} in
  match lib_fault env h with
  | Some ex => (Raise ex, w')
  | None => (Normal tt, w')
  end.

Definition buildIndex (index : KDTreeSingleIndexAdaptor T) : M T unit :=
  lib_call (EvBuildIndex index).

(** [KNNResultSet resultSet(num_results); resultSet.init(..);
    index.findNeighbors(resultSet, query_pt, SearchParams(checks))];
    the harness never reads the neighbour found. *)
Definition findNeighbors (index : KDTreeSingleIndexAdaptor T)
    (num_results : N) (query_pt : list T) (checks : Z) : M T unit :=
  lib_call (EvFindNeighbors index num_results query_pt checks).

(** [std::cout << s] *)
Definition written (w : world T) (s : string) : world T :=
  {| seed := seed w; rand_pos := rand_pos w; now := now w;
     trace := trace w; out := String.append (out w) s |}.

Definition cout (s : string) : M T unit := λ w, (Normal tt, written w s).

(** *** generateRandomPointCloud *)

Definition set_x (v : T) (p : Point T) : Point T := {| x := v; y := y p; z := z p |}.
Definition set_y (v : T) (p : Point T) : Point T := {| x := x p; y := v; z := z p |}.
Definition set_z (v : T) (p : Point T) : Point T := {| x := x p; y := y p; z := v |}.

(** [max_range * (r % 1000) / T(1000)]; [%] truncates like [Z.rem]. *)
Definition coordinate (max_range : T) (r : Z) : T :=
  num_div (num_mul max_range (num_of_int (Z.rem r 1000))) (num_of_int 1000).

Definition default_max_range : T := num_of_int 10.

Definition generateRandomPointCloud (N : N) (max_range : T)
    : M T (PointCloud T) :=
  let point := {| pts := replicate (N.to_nat N) Point_default |} in
  for_loop (N.to_nat N)
    (λ i point,
       r ← rand;
       let point := {| pts := alter (set_x (coordinate max_range r)) i (pts point) |} in
       r ← rand;
       let point := {| pts := alter (set_y (coordinate max_range r)) i (pts point) |} in
       r ← rand;
       let point := {| pts := alter (set_z (coordinate max_range r)) i (pts point) |} in
       mret point)
    point.

(** *** kdtree_demo *)

(** The two reference parameters [buildTimer] and [queryTimer] are
    passed in and handed back. *)
Definition kdtree_demo (N : N) (timers : double * double)
    : M T (double * double) :=
  let '(buildTimer, queryTimer) := timers in
  cloudS ← generateRandomPointCloud N default_max_range;
  cloudT ← generateRandomPointCloud N default_max_range;
  begin_ ← clock;
  let index := {| index_dim := 3; dataset := cloudS; leaf_max_size := 10 |} in
  buildIndex index;;
  end_ ← clock;
  let buildTimer :=
    buildTimer +d double_of_Z (end_ - begin_) /d double_of_Z (CLOCKS_PER_SEC env) in
  elapsed_secs ←
    for_loop (N.to_nat N)
      (λ i elapsed_secs,
         let query_pt :=
           [x (pts cloudT !!! i); y (pts cloudT !!! i); z (pts cloudT !!! i)] in
         let num_results := 1%N in
         begin_ ← clock;
         findNeighbors index num_results query_pt 10;;
         end_ ← clock;
         mret (elapsed_secs +d double_of_Z (end_ - begin_)))
      (double_of_Z 0);
  let elapsed_secs := elapsed_secs /d double_of_Z (CLOCKS_PER_SEC env) in
  let queryTimer := queryTimer +d elapsed_secs /d double_of_size N in
  mret (buildTimer, queryTimer).

(** *** main: the sweep (lines 145-154) and the printing (155-161) *)

(** The loops of [main], with its three constants as parameters. The
    arrays are read in range as long as each has [plotCount] entries
    ([valid_config] below), as in the source; an out-of-range read has no
    meaning there and gives an arbitrary value here. *)

Definition sweep (plotCount : nat) (Ns nReps : list N)
    : M T (list double * list double) :=
  for_loop plotCount
    (λ i '(buildTime, queryTime),
       '(buildTimer, queryTimer) ←
         for_loop (N.to_nat (nReps !!! i))
           (λ repets timers, kdtree_demo (Ns !!! i) timers)
           (double_of_Z 0, double_of_Z 0);
       let buildTimer := buildTimer /d double_of_size (nReps !!! i) in
       let queryTimer := queryTimer /d double_of_size (nReps !!! i) in
       mret (buildTime ++ [buildTimer], queryTime ++ [queryTimer]))
    ([], []).

Definition print_series (v : list double) : M T unit :=
  for_loop (length v)
    (λ i _, cout (show_double env (v !!! i));; cout " "%string) tt;;
  cout newline.

Definition report (buildTime queryTime : list double) : M T unit :=
  print_series buildTime;;
  print_series queryTime.

Definition run (plotCount : nat) (Ns nReps : list N) : M T Z :=
  t ← time_;
  srand t;;
  '(buildTime, queryTime) ← sweep plotCount Ns nReps;
  report buildTime queryTime;;
  mret 0.
End Harness.

(** The sizes and repetition counts compiled into [main]. *)
Definition plotCount : nat := 10.
Definition Ns : list N :=
  [1000; 5000; 10000; 50000; 100000; 200000; 500000; 700000; 1000000; 2000000]%N.
Definition nReps : list N := [1; 1; 1; 1; 1; 1; 1; 1; 1; 1]%N.

Definition main (env : Env float) : M float Z := run env plotCount Ns nReps.

(** ** Vocabulary of the statements *)

Section Vocabulary.
Context {T : Type} `{Numeric T}.
Variable env : Env T.

(** No call into the index library ever raises. *)
Definition no_fault : Prop := ∀ h, lib_fault env h = None.

(** The [j]-th value [rand()] will return from the state [w] on. *)
Definition next_draw (w : world T) (j : nat) : Z :=
  rand_seq env (seed w) (rand_pos w + j).

(** The state after [k] more calls of [rand()] and nothing else. *)
Definition after_draws (w : world T) (k : nat) : world T :=
  {| seed := seed w; rand_pos := rand_pos w + k; now := now w;
     trace := trace w ++ map (λ j, EvRand (next_draw w j)) (seq 0 k);
     out := out w |}.

(** The cloud whose [i]-th point takes the draws [3i], [3i+1], [3i+2] of
    the sequence [d] for its x, y and z coordinates. *)
Definition point_of_draws (max_range : T) (d : nat → Z) (i : nat) : Point T :=
  {| x := coordinate max_range (d (3 * i)%nat);
     y := coordinate max_range (d (3 * i + 1)%nat);
     z := coordinate max_range (d (3 * i + 2)%nat) |}.

Definition cloud_of_draws (max_range : T) (d : nat → Z) (n : nat) : PointCloud T :=
  {| pts := map (point_of_draws max_range d) (seq 0 n) |}.

(** The three calls around one timed query of the point [p], which the
    clock brackets by the readings [iv.1] and [iv.2]. *)
Definition timed_query (index : KDTreeSingleIndexAdaptor T) (p : Point T)
    (iv : Z * Z) : list (event T) :=
  [EvClock iv.1; EvFindNeighbors index 1%N [x p; y p; z p] 10; EvClock iv.2].

(** [t] ticks are what some [buildIndex] call over [index] takes, and
    what some [findNeighbors] call for one neighbour takes. *)
Definition build_ticks (index : KDTreeSingleIndexAdaptor T) (t : Z) : Prop :=
  ∃ h, t = lib_ticks env (h ++ [EvBuildIndex index]).

Definition query_ticks (index : KDTreeSingleIndexAdaptor T) (p : Point T)
    (t : Z) : Prop :=
  ∃ h, t = lib_ticks env (h ++ [EvFindNeighbors index 1%N [x p; y p; z p] 10]).

(** The seconds of a build interval of [t] ticks, and the amortised
    seconds per query of a repetition over [N] points whose queries took
    [ts] ticks, as the harness computes them. *)
Definition seconds (t : Z) : double :=
  double_of_Z t /d double_of_Z (CLOCKS_PER_SEC env).

Definition accumulate_ticks (ts : list Z) : double :=
  foldl (λ acc t, acc +d double_of_Z t) (double_of_Z 0) ts.

Definition amortized_seconds (N : N) (ts : list Z) : double :=
  accumulate_ticks ts /d double_of_Z (CLOCKS_PER_SEC env) /d double_of_size N.

(** The measurements of one repetition over [N] points: the seconds of
    one build over a cloud of [N] points and the amortised seconds of
    [N] queries against it. *)
Definition repetition_sample (N : N) (s : double * double) : Prop :=
  ∃ index tb ts,
    length (pts (dataset index)) = N.to_nat N ∧
    build_ticks index tb ∧
    length ts = N.to_nat N ∧
    Forall (λ t, ∃ p, query_ticks index p t) ts ∧
    s = (seconds tb, amortized_seconds N ts).

(** A stubbed adapter: every build takes [b] ticks and every query [q]. *)
Definition constant_latencies (b q : Z) : Prop :=
  (∀ h index, lib_ticks env (h ++ [EvBuildIndex index]) = b) ∧
  (∀ h index k p c, lib_ticks env (h ++ [EvFindNeighbors index k p c]) = q).
End Vocabulary.

(** The sum of the samples of the repetitions, added in order to a timer
    that starts at 0, divided by the repetition count. *)
Definition average (samples : list double) (R : N) : double :=
  foldl (λ acc s, acc +d s) (double_of_Z 0) samples /d double_of_size R.

(** *** Text *)

Definition space : ascii := " "%char.
Definition newline_char : ascii := "010"%char.

(** Cuts [s] at every [sep]: the pieces that a [sep] ends, and what is
    left after the last one. [cur] is the piece being read. *)
Fixpoint split_terminated (sep : ascii) (s : string) (cur : string)
    : list string * string :=
  match s with
  | EmptyString => ([], cur)
  | String c s' =>
      if Ascii.eqb c sep then
        let '(ps, rest) := split_terminated sep s' EmptyString in
        (cur :: ps, rest)
      else split_terminated sep s' (String.append cur (String c EmptyString))
  end.

Fixpoint has_char (c : ascii) (s : string) : bool :=
  match s with
  | EmptyString => false
  | String c' s' => Ascii.eqb c' c || has_char c s'
  end.

(** A token: not empty, and free of spaces and line ends. *)
Definition is_token (s : string) : bool :=
  negb (String.eqb s EmptyString) && negb (has_char space s)
  && negb (has_char newline_char s).

(** The line the harness writes for a series: every value followed by
    one space. The text of the report is the two lines, each ended by a
    line end. *)
Definition series_line {T} (env : Env T) (v : list double) : string :=
  foldr (λ d rest, String.append (show_double env d) (String space rest))
    EmptyString v.

Definition report_text {T} (env : Env T) (buildTime queryTime : list double)
    : string :=
  String.append (String.append (series_line env buildTime) newline)
                (String.append (series_line env queryTime) newline).

(** *** Configurations *)

(** The two arrays have one entry per size to plot. *)
Definition valid_config (plotCount : nat) (Ns nReps : list N) : Prop :=
  length Ns = plotCount ∧ length nReps = plotCount.

(** *** The grid of the default range *)

(** [c] is the [k]-th of the 1000 coordinates the generator can produce
    for the default range 10 in single precision: it lies in [0, 10) and
    within half a millionth of the grid point [k/100]. *)
Definition grid_check (k : nat) : bool :=
  let c : float := coordinate default_max_range (Z.of_nat k) in
  b_leb (b_of_Z 0) c && b_ltb c (b_of_Z 10)
  && Qle_bool (Qabs (b_to_Q c - (Z.of_nat k # 100))%Q) (1 # 2000000)%Q.

Definition on_grid (c : float) : Prop :=
  ∃ k : nat, (k < 1000)%nat
    ∧ c = coordinate default_max_range (Z.of_nat k)
    ∧ b_leb (b_of_Z 0) c = true ∧ b_ltb c (b_of_Z 10) = true
    ∧ (Qabs (b_to_Q c - (Z.of_nat k # 100)) <= 1 # 2000000)%Q.

(** *** Sample environments *)

(** A stubbed adapter with fixed latencies: every build takes [b] ticks,
    every query [q] ticks. *)
Definition stub_ticks {T} (b q : Z) (h : list (event T)) : Z :=
  match last h with
  | Some (EvBuildIndex _) => b
  | Some (EvFindNeighbors _ _ _ _) => q
  | _ => 0
  end.

(** A platform with a million ticks per second, whose [rand()] runs
    through [draw], and a library that never raises. *)
Definition stub_env (draw : nat → Z) (b q : Z) : Env float :=
  {| rand_seq := λ _ j, draw j;
     time_now := 0;
     CLOCKS_PER_SEC := 1000000;
     lib_ticks := stub_ticks b q;
     lib_fault := λ _, None;
     show_double := λ _, "0"%string |}.

Definition start : world float :=
  {| seed := 1; rand_pos := 0; now := 0; trace := []; out := EmptyString |}.

(** ** Further vocabulary *)

(** *** Signs and finiteness *)

(** [x] is a NaN or carries the sign bit [s]. *)
Definition sf_sign_is (s : bool) (x : spec_float) : Prop :=
  match x with
  | S754_nan => True
  | S754_zero s' | S754_infinity s' | S754_finite s' _ _ => s' = s
  end.

(** A NaN or a number whose sign bit is clear: not below zero, and not
    the negative zero either. *)
Definition never_negative {prec emax : Z} (a : binary prec emax) : Prop :=
  sf_sign_is false (bits a).

(** A zero or a finite number: neither an infinity nor a NaN. *)
Definition b_finite {prec emax : Z} (a : binary prec emax) : bool :=
  match bits a with
  | S754_zero _ | S754_finite _ _ _ => true
  | _ => false
  end.

(** *** Outcomes of a computation *)

(** [m], started in a state that satisfies [P], either returns a value
    and a state that satisfy [Q] or raises an exception in a state that
    satisfies [E]. *)
Definition triple {T A : Type} (P : world T → Prop) (m : M T A)
    (Q : A → world T → Prop) (E : exn → world T → Prop) : Prop :=
  ∀ w, P w →
    match m w with
    | (Normal a, w') => Q a w'
    | (Raise e, w') => E e w'
    end.

(** *** Counting calls *)

Definition is_build {T : Type} (e : event T) : bool :=
  match e with EvBuildIndex _ => true | _ => false end.

Definition is_query {T : Type} (e : event T) : bool :=
  match e with EvFindNeighbors _ _ _ _ => true | _ => false end.

Definition is_srand {T : Type} (e : event T) : bool :=
  match e with EvSrand _ => true | _ => false end.

Definition count_events {T : Type} (p : event T → bool) (h : list (event T))
    : nat :=
  length (List.filter p h).

(** Between [w0] and [w] the harness neither reseeded nor wrote, and it
    made [draws] calls of [rand()], [builds] of [buildIndex] and [queries]
    of [findNeighbors]. *)
Definition accounted {T : Type} (w0 w : world T) (draws builds queries : nat)
    : Prop :=
  seed w = seed w0 ∧ out w = out w0
  ∧ rand_pos w = (rand_pos w0 + draws)%nat
  ∧ count_events is_srand (trace w) = count_events is_srand (trace w0)
  ∧ count_events is_build (trace w) = (count_events is_build (trace w0) + builds)%nat
  ∧ count_events is_query (trace w) = (count_events is_query (trace w0) + queries)%nat.

(** The exception [e] is the one the library raised in the call that
    ends the trace of [w]; since [w0] nothing was reseeded or written. *)
Definition raised_by_library {T : Type} (env : Env T) (w0 : world T) (e : exn)
    (w : world T) : Prop :=
  seed w = seed w0 ∧ out w = out w0 ∧ lib_fault env (trace w) = Some e.

(** The points and the repetitions of the first [k] sizes of a
    configuration: the sums of [Ns[i] * nReps[i]] and of [nReps[i]]. *)
Fixpoint points_swept (Ns nReps : list N) (k : nat) : N :=
  match k with
  | O => 0%N
  | S k' => (points_swept Ns nReps k' + (Ns !!! k') * (nReps !!! k'))%N
  end.

Fixpoint repetitions_swept (nReps : list N) (k : nat) : N :=
  match k with
  | O => 0%N
  | S k' => (repetitions_swept nReps k' + nReps !!! k')%N
  end.

(** *** The coordinates of the default range, in order *)

Definition default_grid : list float :=
  map (λ k, coordinate default_max_range (Z.of_nat k)) (seq 0 1000).

(** Every element is below all the later ones, as [<] compares them. *)
Fixpoint strictly_increasing (l : list float) : bool :=
  match l with
  | [] => true
  | c :: l' => forallb (b_ltb c) l' && strictly_increasing l'
  end.

(** The coordinates a zero range gives for the residues 0 .. 999. *)
Definition zero_range_check (k : nat) : bool :=
  match bits (coordinate (b_of_Z 0 : float) (Z.of_nat k)) with
  | S754_zero false => true
  | _ => false
  end.

(** *** A library that raises *)

(** Like [stub_env], but every [buildIndex] over an empty dataset raises
    [runtime_error]. *)
Definition rejects_empty {T : Type} (h : list (event T)) : option exn :=
  match last h with
  | Some (EvBuildIndex index) =>
      match pts (dataset index) with
      | [] => Some runtime_error
      | _ => None
      end
  | _ => None
  end.

Definition strict_env (draw : nat → Z) (b q : Z) : Env float :=
  {| rand_seq := λ _ j, draw j;
     time_now := 0;
     CLOCKS_PER_SEC := 1000000;
     lib_ticks := stub_ticks b q;
     lib_fault := rejects_empty;
     show_double := λ _, "0"%string |}.

(** *** One round of the sweep *)

(** The body of the loop over the sizes: [sweep] is
    [for_loop plotCount (sweep_round env Ns nReps) ([], [])]. *)
Definition sweep_round {T : Type} `{Numeric T} (env : Env T) (Ns nReps : list N)
    (i : nat) (series : list double * list double)
    : M T (list double * list double) :=
  let '(buildTime, queryTime) := series in
  '(buildTimer, queryTimer) ←
    for_loop (N.to_nat (nReps !!! i))
      (λ repets timers, kdtree_demo env (Ns !!! i) timers)
      (double_of_Z 0, double_of_Z 0);
  let buildTimer := buildTimer /d double_of_size (nReps !!! i) in
  let queryTimer := queryTimer /d double_of_size (nReps !!! i) in
  mret (buildTime ++ [buildTimer], queryTime ++ [queryTimer]).

(** * Properties *)

(** ** Floating-point facts used below *)

Section BinaryFacts.
Context {prec emax : Z}.
Implicit Types a b : binary prec emax.

Lemma b_add_nan_r a : b_add a b_nan = b_nan.
Proof. destruct a as [[]]; reflexivity. Qed.

(** [0.0 / c / 0.0] is a NaN whatever [c] is. *)
Lemma b_div_zero_zero a : b_div (b_div b_zero a) b_zero = b_nan.
Proof. destruct a as [[]]; reflexivity. Qed.
End BinaryFacts.

Lemma foldl_add_nan (l : list double) : foldl (λ acc s, acc +d s) b_nan l = b_nan.
Proof. induction l as [|s l IH]; simpl; [reflexivity | exact IH]. Qed.

Lemma foldl_add_all_nan (l : list double) (a : double) :
  l ≠ [] → Forall (λ s, s = b_nan) l → foldl (λ acc s, acc +d s) a l = b_nan.
Proof.
  destruct l as [|s l]; [congruence | intros _ Hall].
  inversion Hall as [|? ? Hs _]; subst. simpl.
  rewrite b_add_nan_r. apply foldl_add_nan.
Qed.

(** ** The monad and the loops *)

Section Loops.
Context {T : Type}.

Lemma bind_returns {A B : Type} (m : M T A) (f : A → M T B) w a w1 :
  m w = (Normal a, w1) → (m ≫= f) w = f a w1.
Proof. intros Hm. unfold mbind, M_bind. rewrite Hm. reflexivity. Qed.

Lemma bind_raises {A B : Type} (m : M T A) (f : A → M T B) w e w1 :
  m w = (Raise e, w1) → (m ≫= f) w = (Raise e, w1).
Proof. intros Hm. unfold mbind, M_bind. rewrite Hm. reflexivity. Qed.

(** The loop rule: an invariant that every round re-establishes holds
    when the loop is left, and the loop does return. *)
Lemma for_from_invariant {St : Type} (I : nat → St → world T → Prop)
    (body : nat → St → M T St) (n : nat) :
  ∀ i s w,
    I i s w →
    (∀ k s1 w1, (i ≤ k < i + n)%nat → I k s1 w1 →
       ∃ s2 w2, body k s1 w1 = (Normal s2, w2) ∧ I (S k) s2 w2) →
    ∃ s' w', for_from i n body s w = (Normal s', w') ∧ I (i + n)%nat s' w'.
Proof.
  induction n as [|n IH]; intros i s w Hi Hbody.
  - exists s, w. rewrite Nat.add_0_r. split; [reflexivity | exact Hi].
  - destruct (Hbody i s w) as (s1 & w1 & Hrun & Hi1); [lia | exact Hi |].
    destruct (IH (S i) s1 w1 Hi1) as (s' & w' & Hrest & Hfin).
    { intros k s2 w2 Hk. apply Hbody. lia. }
    exists s', w'. split.
    + simpl. rewrite (bind_returns _ _ _ _ _ Hrun). exact Hrest.
    + replace (i + S n)%nat with (S i + n)%nat by lia. exact Hfin.
Qed.

Lemma for_loop_invariant {St : Type} (I : nat → St → world T → Prop)
    (body : nat → St → M T St) (n : nat) s w :
  I 0%nat s w →
  (∀ k s1 w1, (k < n)%nat → I k s1 w1 →
     ∃ s2 w2, body k s1 w1 = (Normal s2, w2) ∧ I (S k) s2 w2) →
  ∃ s' w', for_loop n body s w = (Normal s', w') ∧ I n s' w'.
Proof.
  intros H0 Hbody.
  apply (for_from_invariant I body n 0 s w H0).
  intros k s1 w1 Hk. apply Hbody. lia.
Qed.
End Loops.

(** ** The generator *)

Section Generator.
Context {T : Type} `{Numeric T}.
Variable env : Env T.

Lemma after_draws_0 w : after_draws env w 0 = w.
Proof.
  destruct w. unfold after_draws. simpl.
  rewrite Nat.add_0_r, app_nil_r. reflexivity.
Qed.

Lemma after_draws_add w a b :
  after_draws env (after_draws env w a) b = after_draws env w (a + b).
Proof.
  unfold after_draws, next_draw. simpl. f_equal; [lia |].
  rewrite <- app_assoc. f_equal.
  rewrite seq_app, map_app. f_equal.
  replace (seq (0 + a) b) with (Nat.add a <$> seq 0 b)
    by (rewrite fmap_add_seq; f_equal; lia).
  rewrite <- list_fmap_compose.
  apply list_fmap_ext. intros _ j _. simpl. do 2 f_equal. lia.
Qed.

Lemma rand_returns w :
  rand env w = (Normal (next_draw env w 0), after_draws env w 1).
Proof.
  unfold rand, after_draws, next_draw. simpl.
  rewrite Nat.add_0_r. do 3 f_equal. lia.
Qed.

Lemma next_draw_after w a j :
  next_draw env (after_draws env w a) j = next_draw env w (a + j).
Proof. unfold next_draw. simpl. f_equal. lia. Qed.

(** One round of the loop fills the point [i] from the next three draws. *)
Lemma generate_round (max_range : T) (i : nat) (point : PointCloud T) w :
  (i < length (pts point))%nat →
  (r ← rand env;
   let point := {| pts := alter (set_x (coordinate max_range r)) i (pts point) |} in
   r ← rand env;
   let point := {| pts := alter (set_y (coordinate max_range r)) i (pts point) |} in
   r ← rand env;
   let point := {| pts := alter (set_z (coordinate max_range r)) i (pts point) |} in
   mret point) w
  = (Normal {| pts := <[i := point_of_draws max_range (next_draw env w) 0]> (pts point) |},
     after_draws env w 3).
Proof.
  intros Hlt.
  rewrite (bind_returns _ _ _ _ _ (rand_returns w)). cbv zeta.
  rewrite (bind_returns _ _ _ _ _ (rand_returns _)). cbv zeta.
  rewrite (bind_returns _ _ _ _ _ (rand_returns _)). cbv zeta.
  rewrite !after_draws_add, !next_draw_after. simpl pts.
  unfold mret, M_ret. do 3 f_equal.
  destruct (lookup_lt_is_Some_2 (pts point) i Hlt) as [p Hp].
  apply list_eq. intros j.
  destruct (decide (i = j)) as [->|Hne].
  - rewrite list_lookup_insert_eq by exact Hlt.
    rewrite !list_lookup_alter_eq, Hp. reflexivity.
  - rewrite list_lookup_insert_ne by exact Hne.
    rewrite !list_lookup_alter_ne by exact Hne. reflexivity.
Qed.

(** The closed form of the generator: it returns, the cloud is the one
    the next [3 N] draws spell, and nothing but those draws happened. *)
Lemma generate_returns (N : N) (max_range : T) w :
  generateRandomPointCloud env N max_range w
  = (Normal (cloud_of_draws max_range (next_draw env w) (N.to_nat N)),
     after_draws env w (3 * N.to_nat N)).
Proof.
  unfold generateRandomPointCloud. set (n := N.to_nat N).
  destruct (for_loop_invariant
    (λ k point w',
       pts point = map (point_of_draws max_range (next_draw env w)) (seq 0 k)
                   ++ replicate (n - k) Point_default
       ∧ w' = after_draws env w (3 * k))
    (λ i point,
       r ← rand env;
       let point := {| pts := alter (set_x (coordinate max_range r)) i (pts point) |} in
       r ← rand env;
       let point := {| pts := alter (set_y (coordinate max_range r)) i (pts point) |} in
       r ← rand env;
       let point := {| pts := alter (set_z (coordinate max_range r)) i (pts point) |} in
       mret point)
    n {| pts := replicate n Point_default |} w)
    as (point & w' & Hrun & Hpts & Hw).
  - simpl. rewrite Nat.sub_0_r, after_draws_0. split; reflexivity.
  - intros k point w1 Hk [Hpts ->].
    assert (Hlen : length (pts point) = n).
    { rewrite Hpts, length_app, length_map, length_seq, length_replicate. lia. }
    eexists _, _. split; [apply generate_round; lia |].
    split.
    + simpl pts. rewrite Hpts. rewrite seq_S, map_app. simpl.
      replace (n - k)%nat with (S (n - S k)) by lia. simpl.
      rewrite <- app_assoc. simpl.
      rewrite insert_app_r_alt by (rewrite length_map, length_seq; lia).
      rewrite length_map, length_seq, Nat.sub_diag. simpl.
      do 2 f_equal. unfold point_of_draws.
      rewrite !next_draw_after. do 3 f_equal; f_equal; lia.
    + rewrite after_draws_add. f_equal. lia.
  - etransitivity; [exact Hrun |]. subst w'. do 2 f_equal.
    destruct point as [l]. simpl in Hpts. subst l. unfold cloud_of_draws. f_equal.
    rewrite Nat.sub_diag. simpl. rewrite app_nil_r. reflexivity.
Qed.

Lemma cloud_of_draws_length (max_range : T) d n :
  length (pts (cloud_of_draws max_range d n)) = n.
Proof. simpl. rewrite length_map, length_seq. reflexivity. Qed.

Lemma cloud_of_draws_ext (max_range : T) d1 d2 n :
  (∀ j, (j < 3 * n)%nat → d1 j = d2 j) →
  cloud_of_draws max_range d1 n = cloud_of_draws max_range d2 n.
Proof.
  intros Hd. unfold cloud_of_draws. f_equal.
  apply list_fmap_ext. intros k i Hi.
  apply lookup_seq in Hi as [-> Hi]. simpl.
  unfold point_of_draws. rewrite !Hd by lia. reflexivity.
Qed.
End Generator.

(** ** One repetition *)

Section Repetition.
Context {T : Type} `{Numeric T}.
Variable env : Env T.
Hypothesis Hlib : no_fault env.

Lemma clock_returns (w : world T) :
  clock w = (Normal (now w), log (EvClock (now w)) w).
Proof. reflexivity. Qed.

Lemma lib_call_returns e w :
  lib_call env e w
  = (Normal tt,
     {| seed := seed w; rand_pos := rand_pos w;
        now := now w + lib_ticks env (trace w ++ [e]);
        trace := trace w ++ [e]; out := out w |}).
Proof. unfold lib_call. cbv zeta. rewrite Hlib. reflexivity. Qed.

(** One timed query: the clock is read, the library is called, the clock
    is read again, and the interval is added to the running total. *)
Lemma timed_query_round index p (elapsed_secs : double) w :
  ∃ t w',
    (begin_ ← clock;
     findNeighbors env index 1%N [x p; y p; z p] 10;;
     end_ ← clock;
     mret (elapsed_secs +d double_of_Z (end_ - begin_))) w
    = (Normal (elapsed_secs +d double_of_Z t), w')
    ∧ query_ticks env index p t
    ∧ trace w' = trace w ++ timed_query index p (now w, now w + t)
    ∧ now w' = now w + t
    ∧ seed w' = seed w ∧ rand_pos w' = rand_pos w ∧ out w' = out w.
Proof.
  eexists _, _. split.
  - rewrite (bind_returns _ _ _ _ _ (clock_returns w)).
    unfold findNeighbors.
    rewrite (bind_returns _ _ _ _ _ (lib_call_returns _ _)).
    rewrite (bind_returns _ _ _ _ _ (clock_returns _)).
    unfold mret, M_ret. simpl.
    replace (now w + lib_ticks env
               ((trace w ++ [EvClock (now w)])
                ++ [EvFindNeighbors index 1%N [x p; y p; z p] 10]) - now w)
      with (lib_ticks env
              ((trace w ++ [EvClock (now w)])
               ++ [EvFindNeighbors index 1%N [x p; y p; z p] 10])) by lia.
    reflexivity.
  - simpl. split; [eexists; reflexivity |].
    split; [| auto].
    unfold timed_query. simpl. rewrite <- !app_assoc. reflexivity.
Qed.

Lemma accumulate_ticks_snoc ts t :
  accumulate_ticks (ts ++ [t]) = accumulate_ticks ts +d double_of_Z t.
Proof. unfold accumulate_ticks. rewrite foldl_app. reflexivity. Qed.

(** The query loop over the target points. *)
Lemma query_loop_returns index (targets : list (Point T)) w :
  ∃ ivs w',
    for_loop (length targets)
      (λ i elapsed_secs,
         let query_pt :=
           [x (targets !!! i); y (targets !!! i); z (targets !!! i)] in
         let num_results := 1%N in
         begin_ ← clock;
         findNeighbors env index num_results query_pt 10;;
         end_ ← clock;
         mret (elapsed_secs +d double_of_Z (end_ - begin_)))
      (double_of_Z 0) w
    = (Normal (accumulate_ticks (map (λ iv, iv.2 - iv.1) ivs)), w')
    ∧ length ivs = length targets
    ∧ Forall2 (λ p iv, query_ticks env index p (iv.2 - iv.1)) targets ivs
    ∧ trace w' = trace w ++ concat (zip_with (timed_query index) targets ivs)
    ∧ seed w' = seed w ∧ rand_pos w' = rand_pos w ∧ out w' = out w.
Proof.
  destruct (for_loop_invariant
    (λ k (elapsed_secs : double) w',
       ∃ ivs : list (Z * Z),
         elapsed_secs = accumulate_ticks (map (λ iv, iv.2 - iv.1) ivs)
         ∧ length ivs = k
         ∧ Forall2 (λ p iv, query_ticks env index p (iv.2 - iv.1))
             (take k targets) ivs
         ∧ trace w' = trace w
                      ++ concat (zip_with (timed_query index) (take k targets) ivs)
         ∧ seed w' = seed w ∧ rand_pos w' = rand_pos w ∧ out w' = out w)
    (λ i elapsed_secs,
         let query_pt :=
           [x (targets !!! i); y (targets !!! i); z (targets !!! i)] in
         let num_results := 1%N in
         begin_ ← clock;
         findNeighbors env index num_results query_pt 10;;
         end_ ← clock;
         mret (elapsed_secs +d double_of_Z (end_ - begin_)))
    (length targets) (double_of_Z 0) w)
    as (e & w' & Hrun & ivs & -> & Hlen & Hticks & Htrace & Hrest).
  - exists []. rewrite take_0. simpl. rewrite app_nil_r.
    repeat split; auto.
  - intros k e w1 Hk (ivs & -> & Hlen & Hticks & Htrace & Hs & Hr & Ho).
    destruct (lookup_lt_is_Some_2 targets k Hk) as [p Hp].
    destruct (timed_query_round index p
                (accumulate_ticks (map (λ iv, iv.2 - iv.1) ivs)) w1)
      as (t & w2 & Hrun & Hq & Htr & _ & Hs2 & Hr2 & Ho2).
    eexists _, w2. split.
    { cbv zeta. rewrite (list_lookup_total_correct _ _ _ Hp). exact Hrun. }
    exists (ivs ++ [(now w1, now w1 + t)]).
    rewrite (take_S_r _ _ _ Hp).
    assert (Hlk : length (take k targets) = length ivs).
    { rewrite length_take. lia. }
    split.
    { rewrite map_app. cbn [map]. rewrite accumulate_ticks_snoc. simpl.
      do 2 f_equal. lia. }
    split; [rewrite length_app; simpl; lia |].
    split.
    { apply Forall2_app; [exact Hticks |].
      constructor; [| constructor]. simpl.
      replace (now w1 + t - now w1) with t by lia. exact Hq. }
    split.
    { rewrite zip_with_app by exact Hlk. rewrite concat_app. simpl.
      rewrite Htr, Htrace, <- app_assoc. reflexivity. }
    repeat split; congruence.
  - rewrite firstn_all in Hticks, Htrace.
    exists ivs, w'. repeat split; tauto || auto.
Qed.

(** The closed form of one repetition over [N] points. *)
Lemma kdtree_demo_returns (N : N) (buildTimer queryTimer : double) w :
  let n := N.to_nat N in
  let cloudS := cloud_of_draws default_max_range (next_draw env w) n in
  let cloudT :=
    cloud_of_draws default_max_range
      (next_draw env (after_draws env w (3 * n))) n in
  let index := {| index_dim := 3; dataset := cloudS; leaf_max_size := 10 |} in
  ∃ t0 t1 ivs w',
    kdtree_demo env N (buildTimer, queryTimer) w
    = (Normal (buildTimer +d seconds env (t1 - t0),
               queryTimer +d amortized_seconds env N (map (λ iv, iv.2 - iv.1) ivs)),
       w')
    ∧ length ivs = n
    ∧ build_ticks env index (t1 - t0)
    ∧ Forall2 (λ p iv, query_ticks env index p (iv.2 - iv.1)) (pts cloudT) ivs
    ∧ trace w' = trace (after_draws env w (6 * n))
                 ++ [EvClock t0; EvBuildIndex index; EvClock t1]
                 ++ concat (zip_with (timed_query index) (pts cloudT) ivs)
    ∧ seed w' = seed w ∧ rand_pos w' = (rand_pos w + 6 * n)%nat
    ∧ out w' = out w.
Proof.
  intros n cloudS cloudT index.
  set (w1 := after_draws env w (3 * n)).
  set (w2 := after_draws env w1 (3 * n)).
  set (w3 := log (EvClock (now w2)) w2).
  set (w4 := {| seed := seed w3; rand_pos := rand_pos w3;
                now := now w3 + lib_ticks env (trace w3 ++ [EvBuildIndex index]);
                trace := trace w3 ++ [EvBuildIndex index]; out := out w3 |}).
  set (w5 := log (EvClock (now w4)) w4).
  destruct (query_loop_returns index (pts cloudT) w5)
    as (ivs & w' & Hloop & Hlen & Hticks & Htrace & Hs & Hr & Ho).
  assert (HlenT : length (pts cloudT) = n) by apply cloud_of_draws_length.
  rewrite HlenT in Hloop, Hlen.
  exists (now w2), (now w4), ivs, w'. split.
  - unfold kdtree_demo.
    rewrite (bind_returns _ _ _ _ _ (generate_returns env N _ w)).
    rewrite (bind_returns _ _ _ _ _ (generate_returns env N _ w1)).
    rewrite (bind_returns _ _ _ _ _ (clock_returns w2)).
    cbv zeta. unfold buildIndex.
    rewrite (bind_returns _ _ _ _ _ (lib_call_returns _ w3)).
    rewrite (bind_returns _ _ _ _ _ (clock_returns w4)).
    etransitivity; [apply bind_returns; exact Hloop | reflexivity].
  - split; [exact Hlen |].
    split; [exists (trace w3); simpl; lia |].
    split; [exact Hticks |].
    split.
    { assert (Hw2 : w2 = after_draws env w (6 * n)).
      { unfold w2, w1. rewrite after_draws_add. f_equal. lia. }
      rewrite Htrace.
      change (trace w5)
        with (((trace w2 ++ [EvClock (now w2)]) ++ [EvBuildIndex index])
              ++ [EvClock (now w4)]).
      rewrite <- !app_assoc.
      f_equal. exact (f_equal trace Hw2). }
    rewrite Hs, Hr, Ho.
    change (rand_pos w5) with (rand_pos w + 3 * n + 3 * n)%nat.
    split; [reflexivity |]. split; [lia | reflexivity].
Qed.

(** What the sweep needs of a repetition: it returns, and adds one
    sample to each timer. *)
Lemma kdtree_demo_sample (N : N) (timers : double * double) w :
  ∃ s w',
    kdtree_demo env N timers w = (Normal (timers.1 +d s.1, timers.2 +d s.2), w')
    ∧ out w' = out w
    ∧ repetition_sample env N s.
Proof.
  destruct timers as [bt qt].
  destruct (kdtree_demo_returns N bt qt w)
    as (t0 & t1 & ivs & w' & Hrun & Hlen & Hb & Hq & _ & _ & _ & Hout).
  exists (seconds env (t1 - t0),
          amortized_seconds env N (map (λ iv, iv.2 - iv.1) ivs)), w'.
  split; [exact Hrun |]. split; [exact Hout |].
  eexists _, (t1 - t0), (map (λ iv, iv.2 - iv.1) ivs).
  split; [| split; [exact Hb |]].
  { simpl. rewrite length_map, length_seq. reflexivity. }
  split; [rewrite length_map; exact Hlen |].
  split; [| reflexivity].
  apply List.Forall_forall. intros t Ht.
  apply list_elem_of_In in Ht.
  apply (list_elem_of_fmap_1 (λ iv : Z * Z, iv.2 - iv.1)) in Ht as (iv & -> & Hiv).
  apply list_elem_of_lookup in Hiv as [i Hi].
  destruct (Forall2_lookup_r _ _ _ _ _ Hq Hi) as (p & _ & Hp).
  exists p. exact Hp.
Qed.
End Repetition.

(** ** The sweep *)

Section Sweep.
Context {T : Type} `{Numeric T}.
Variable env : Env T.
Hypothesis Hlib : no_fault env.

(** The repetitions of one size: both timers start at 0 and receive one
    sample per repetition. *)
Lemma repetitions_return (N : N) (R : nat) w :
  ∃ (ss : list (double * double)) w',
    for_loop R (λ repets timers, kdtree_demo env N timers)
      (double_of_Z 0, double_of_Z 0) w
    = (Normal (foldl (λ acc s, acc +d s) (double_of_Z 0) (ss.*1),
               foldl (λ acc s, acc +d s) (double_of_Z 0) (ss.*2)), w')
    ∧ out w' = out w
    ∧ length ss = R
    ∧ Forall (repetition_sample env N) ss.
Proof.
  destruct (for_loop_invariant
    (λ k (timers : double * double) (w' : world T),
       ∃ ss : list (double * double),
         timers = (foldl (λ acc s, acc +d s) (double_of_Z 0) (ss.*1),
                   foldl (λ acc s, acc +d s) (double_of_Z 0) (ss.*2))
         ∧ out w' = out w
         ∧ length ss = k
         ∧ Forall (repetition_sample env N) ss)
    (λ repets timers, kdtree_demo env N timers)
    R (double_of_Z 0, double_of_Z 0) w)
    as (timers & w' & Hrun & ss & -> & Hout & Hlen & Hss).
  - exists []. repeat split. constructor.
  - intros k timers w1 _ (ss & -> & Hout & Hlen & Hss).
    destruct (kdtree_demo_sample env Hlib N
                (foldl (λ acc s, acc +d s) (double_of_Z 0) (ss.*1),
                 foldl (λ acc s, acc +d s) (double_of_Z 0) (ss.*2)) w1)
      as (s & w2 & Hrun & Hout2 & Hs).
    eexists _, w2. split; [exact Hrun |].
    exists (ss ++ [s]). rewrite !fmap_app, !foldl_app.
    split; [reflexivity |].
    split; [congruence |].
    split; [rewrite length_app; simpl; lia |].
    apply Forall_app. split; [exact Hss | constructor; [exact Hs | constructor]].
  - exists ss, w'. auto.
Qed.

(** The closed form of the sweep: one list of repetition samples per
    size, averaged over the repetition count of that size. *)
Lemma sweep_returns (plotCount : nat) (Ns nReps : list N) w :
  ∃ (samples : list (list (double * double))) w',
    sweep env plotCount Ns nReps w
    = (Normal (imap (λ i ss, average (ss.*1) (nReps !!! i)) samples,
               imap (λ i ss, average (ss.*2) (nReps !!! i)) samples), w')
    ∧ out w' = out w
    ∧ length samples = plotCount
    ∧ ∀ i ss, samples !! i = Some ss →
        length ss = N.to_nat (nReps !!! i)
        ∧ Forall (repetition_sample env (Ns !!! i)) ss.
Proof.
  destruct (for_loop_invariant
    (λ k (series : list double * list double) (w' : world T),
       ∃ samples : list (list (double * double)),
         series = (imap (λ i ss, average (ss.*1) (nReps !!! i)) samples,
                   imap (λ i ss, average (ss.*2) (nReps !!! i)) samples)
         ∧ out w' = out w
         ∧ length samples = k
         ∧ ∀ i ss, samples !! i = Some ss →
             length ss = N.to_nat (nReps !!! i)
             ∧ Forall (repetition_sample env (Ns !!! i)) ss)
    (λ i '(buildTime, queryTime),
       '(buildTimer, queryTimer) ←
         for_loop (N.to_nat (nReps !!! i))
           (λ repets timers, kdtree_demo env (Ns !!! i) timers)
           (double_of_Z 0, double_of_Z 0);
       let buildTimer := buildTimer /d double_of_size (nReps !!! i) in
       let queryTimer := queryTimer /d double_of_size (nReps !!! i) in
       mret (buildTime ++ [buildTimer], queryTime ++ [queryTimer]))
    plotCount ([], []) w)
    as (series & w' & Hrun & samples & -> & Hout & Hlen & Hsamples).
  - exists []. split; [reflexivity |]. split; [reflexivity |].
    split; [reflexivity |].
    intros i ss Hi. rewrite lookup_nil in Hi. discriminate.
  - intros k series w1 _ (samples & -> & Hout & Hlen & Hsamples).
    destruct (repetitions_return (Ns !!! k) (N.to_nat (nReps !!! k)) w1)
      as (ss & w2 & Hrun & Hout2 & Hlss & Hss).
    eexists _, w2. split.
    { etransitivity; [apply bind_returns; exact Hrun | reflexivity]. }
    exists (samples ++ [ss]). rewrite !imap_app. simpl.
    rewrite Hlen, Nat.add_0_r.
    split; [reflexivity |].
    split; [congruence |].
    split; [rewrite length_app; simpl; lia |].
    intros i ss' Hi.
    apply lookup_app_Some in Hi as [Hi | [Hge Hi]].
    + apply Hsamples. exact Hi.
    + apply list_lookup_singleton_Some in Hi as [Hi ->].
      replace i with k by lia. split; assumption.
  - exists samples, w'. auto.
Qed.

Lemma sweep_lengths (plotCount : nat) (Ns nReps : list N) w :
  ∃ buildTime queryTime w',
    sweep env plotCount Ns nReps w = (Normal (buildTime, queryTime), w')
    ∧ out w' = out w
    ∧ length buildTime = plotCount ∧ length queryTime = plotCount.
Proof.
  destruct (sweep_returns plotCount Ns nReps w)
    as (samples & w' & Hrun & Hout & Hlen & _).
  eexists _, _, w'. split; [exact Hrun |].
  rewrite !length_imap. auto.
Qed.
End Sweep.

(** ** The report *)

Section Text.
Lemma string_append_nil_r s : String.append s EmptyString = s.
Proof. induction s as [|c s IH]; simpl; [reflexivity | rewrite IH; reflexivity]. Qed.

Lemma string_append_assoc s1 s2 s3 :
  String.append (String.append s1 s2) s3 = String.append s1 (String.append s2 s3).
Proof. induction s1 as [|c s1 IH]; simpl; [reflexivity | rewrite IH; reflexivity]. Qed.

Lemma has_char_append c s1 s2 :
  has_char c (String.append s1 s2) = has_char c s1 || has_char c s2.
Proof.
  induction s1 as [|c1 s1 IH]; simpl; [reflexivity |].
  rewrite IH. apply orb_assoc.
Qed.

(** A piece free of [sep], followed by [sep], is cut off as one piece. *)
Lemma split_terminated_piece sep a rest :
  has_char sep a = false →
  ∀ cur,
    split_terminated sep (String.append a (String sep rest)) cur
    = (String.append cur a :: (split_terminated sep rest EmptyString).1,
       (split_terminated sep rest EmptyString).2).
Proof.
  induction a as [|c a IH]; intros Hfree cur; simpl.
  - rewrite Ascii.eqb_refl, string_append_nil_r.
    destruct (split_terminated sep rest EmptyString). reflexivity.
  - simpl in Hfree. apply orb_false_elim in Hfree as [Hc Ha].
    rewrite Hc, (IH Ha), string_append_assoc. reflexivity.
Qed.
End Text.

Section Report.
Context {T : Type} `{Numeric T}.
Variable env : Env T.

Lemma written_written (w : world T) s1 s2 :
  written (written w s1) s2 = written w (String.append s1 s2).
Proof. unfold written. simpl. rewrite string_append_assoc. reflexivity. Qed.

Lemma written_nil (w : world T) : written w EmptyString = w.
Proof. destruct w. unfold written. simpl. rewrite string_append_nil_r. reflexivity. Qed.

Lemma series_line_cons d v :
  series_line env (d :: v)
  = String.append (show_double env d) (String space (series_line env v)).
Proof. reflexivity. Qed.

Lemma series_line_snoc v d :
  series_line env (v ++ [d])
  = String.append (series_line env v)
      (String.append (show_double env d) (String space EmptyString)).
Proof.
  induction v as [|d' v IH].
  - reflexivity.
  - rewrite <- app_comm_cons, !series_line_cons, IH.
    rewrite string_append_assoc. reflexivity.
Qed.

Lemma print_series_returns (v : list double) (w : world T) :
  print_series env v w
  = (Normal tt, written w (String.append (series_line env v) newline)).
Proof.
  unfold print_series.
  destruct (for_loop_invariant
    (λ k (_ : unit) (w' : world T), w' = written w (series_line env (take k v)))
    (λ i _, cout (show_double env (v !!! i));; cout " "%string)
    (length v) tt w) as ([] & w' & Hrun & ->).
  - rewrite take_0. simpl. symmetry. apply written_nil.
  - intros k [] w1 Hk Hw1.
    destruct (lookup_lt_is_Some_2 v k Hk) as [d Hd].
    exists tt, (written (written w1 (show_double env d)) (String space EmptyString)).
    split; [rewrite (list_lookup_total_correct _ _ _ Hd); reflexivity |].
    rewrite Hw1, (take_S_r _ _ _ Hd), series_line_snoc, !written_written.
    reflexivity.
  - rewrite (bind_returns _ _ _ _ _ Hrun).
    rewrite firstn_all. unfold cout. rewrite written_written. reflexivity.
Qed.

Lemma report_returns (buildTime queryTime : list double) (w : world T) :
  report env buildTime queryTime w
  = (Normal tt, written w (report_text env buildTime queryTime)).
Proof.
  unfold report.
  rewrite (bind_returns _ _ _ _ _ (print_series_returns buildTime w)).
  rewrite print_series_returns, written_written. reflexivity.
Qed.

Hypothesis Hshow : ∀ d, is_token (show_double env d) = true.

Lemma show_double_free d :
  has_char space (show_double env d) = false
  ∧ has_char newline_char (show_double env d) = false.
Proof.
  specialize (Hshow d). unfold is_token in Hshow.
  apply andb_prop in Hshow as [Hshow Hnl].
  apply andb_prop in Hshow as [_ Hsp].
  split; apply negb_true_iff; assumption.
Qed.

(** Cutting a line at the spaces gives back the values, in order, and
    leaves nothing over. *)
Lemma series_line_tokens (v : list double) :
  split_terminated space (series_line env v) EmptyString
  = (map (show_double env) v, EmptyString).
Proof.
  induction v as [|d v IH]; [reflexivity |].
  rewrite series_line_cons.
  rewrite split_terminated_piece by apply show_double_free.
  rewrite IH. reflexivity.
Qed.

Lemma series_line_one_line (v : list double) :
  has_char newline_char (series_line env v) = false.
Proof.
  induction v as [|d v IH]; [reflexivity |].
  rewrite series_line_cons, has_char_append. simpl.
  rewrite IH, (proj2 (show_double_free d)). reflexivity.
Qed.

(** Cutting the text at the line ends gives the two lines and leaves
    nothing over. *)
Lemma report_text_lines (buildTime queryTime : list double) :
  split_terminated newline_char (report_text env buildTime queryTime) EmptyString
  = ([series_line env buildTime; series_line env queryTime], EmptyString).
Proof.
  unfold report_text, newline.
  rewrite string_append_assoc. simpl.
  rewrite split_terminated_piece by apply series_line_one_line.
  rewrite split_terminated_piece by apply series_line_one_line.
  reflexivity.
Qed.
End Report.

(** ** The dataset interface *)

(** C7. For every cloud, every query coordinate array [p1] and every
    in-range point index, [kdtree_distance] is the squared Euclidean
    distance: the sum over the three axes of the squared differences
    between the components of [p1] and the stored coordinates. No square
    root is taken, and the [size] argument plays no role. *)
Theorem kdtree_distance_squared_euclidean {T : Type} `{Numeric T}
    (c : PointCloud T) (p1 : list T) (idx_p2 : nat) (size : N) (p : Point T) :
  pts c !! idx_p2 = Some p →
  kdtree_distance c p1 idx_p2 size
  = num_add (num_add (squared_difference (p1 !!! 0%nat) (x p))
                     (squared_difference (p1 !!! 1%nat) (y p)))
            (squared_difference (p1 !!! 2%nat) (z p))
  ∧ kdtree_distance c p1 idx_p2 size = squared_euclidean c p1 idx_p2.
Proof.
  intros Hp. unfold kdtree_distance, squared_euclidean, kdtree_get_pt.
  rewrite (list_lookup_total_correct _ _ _ Hp). split; reflexivity.
Qed.

(** The distance from (3, 4, 0) to the origin is 25, not 5. *)
Lemma kdtree_distance_squared_euclidean_witness :
  let c : PointCloud float :=
    {| pts := [{| x := b_of_Z 0; y := b_of_Z 0; z := b_of_Z 0 |}] |} in
  let p1 : list float := [b_of_Z 3; b_of_Z 4; b_of_Z 0] in
  kdtree_distance c p1 0 3 = b_of_Z 25
  ∧ kdtree_distance c p1 0 3 = squared_euclidean c p1 0.
Proof.
  intros c p1. split; [reflexivity |].
  apply (kdtree_distance_squared_euclidean c p1 0 3
           {| x := b_of_Z 0; y := b_of_Z 0; z := b_of_Z 0 |}).
  reflexivity.
Defined.

(** C9. For every cloud, every in-range point index and every integer
    [dim], [kdtree_get_pt] returns the x coordinate for [dim = 0], the y
    coordinate for [dim = 1] and the z coordinate for every other [dim],
    out-of-range and negative ones included; it is a total function and
    has no error result. *)
Theorem kdtree_get_pt_by_dim {T : Type} `{Numeric T}
    (c : PointCloud T) (idx : nat) (dim : Z) (p : Point T) :
  pts c !! idx = Some p →
  (dim = 0 → kdtree_get_pt c idx dim = x p)
  ∧ (dim = 1 → kdtree_get_pt c idx dim = y p)
  ∧ (dim ≠ 0 → dim ≠ 1 → kdtree_get_pt c idx dim = z p).
Proof.
  intros Hp. unfold kdtree_get_pt.
  rewrite (list_lookup_total_correct _ _ _ Hp).
  split; [intros ->; reflexivity |].
  split; [intros ->; reflexivity |].
  intros H0 H1.
  destruct (Z.eqb_spec dim 0) as [|_]; [contradiction |].
  destruct (Z.eqb_spec dim 1) as [|_]; [contradiction |].
  reflexivity.
Qed.

Lemma kdtree_get_pt_by_dim_witness :
  let c : PointCloud float :=
    {| pts := [{| x := b_of_Z 1; y := b_of_Z 2; z := b_of_Z 3 |}] |} in
  kdtree_get_pt c 0 3 = b_of_Z 3 ∧ kdtree_get_pt c 0 (-1) = b_of_Z 3.
Proof.
  intros c.
  pose (p := {| x := b_of_Z 1; y := b_of_Z 2; z := b_of_Z 3 |} : Point float).
  split.
  - apply (kdtree_get_pt_by_dim c 0 3 p); [reflexivity | lia | lia].
  - apply (kdtree_get_pt_by_dim c 0 (-1) p); [reflexivity | lia | lia].
Defined.

(** ** The generator *)





(** The 1000 coordinates of the default range. *)
Lemma grid_check_all : forallb grid_check (seq 0 1000) = true.
Proof. vm_compute. reflexivity. Qed.

Lemma coordinate_on_grid (r : Z) :
  0 ≤ r → on_grid (coordinate default_max_range r).
Proof.
  intros Hr.
  assert (Hrem : Z.rem r 1000 = r mod 1000) by (apply Z.rem_mod_nonneg; lia).
  assert (Hk : 0 ≤ r mod 1000 < 1000) by (apply Z.mod_pos_bound; lia).
  set (k := Z.to_nat (r mod 1000)).
  assert (Hkr : Z.of_nat k = r mod 1000) by (unfold k; lia).
  assert (Hc : coordinate (T:=float) default_max_range r
               = coordinate default_max_range (Z.of_nat k)).
  { unfold coordinate. rewrite Hrem, Hkr.
    rewrite (Z.rem_small (r mod 1000) 1000) by lia. reflexivity. }
  assert (Hg : grid_check k = true).
  { pose proof grid_check_all as Hall.
    rewrite forallb_forall in Hall. apply Hall.
    apply in_seq. lia. }
  unfold grid_check in Hg. cbv zeta in Hg.
  apply andb_prop in Hg as [Hg Hq].
  apply andb_prop in Hg as [Hle Hlt].
  exists k. rewrite Hc.
  split; [lia |]. split; [reflexivity |].
  split; [exact Hle |]. split; [exact Hlt |].
  apply Qle_bool_iff. exact Hq.
Qed.




(** ** One repetition: the order of the calls *)



(** ** The sweep: sizes, repetitions and averages *)

Section Aggregation.
Context {T : Type} `{Numeric T}.
Variable env : Env T.

(** With fixed latencies every repetition over [N] points measures the
    same pair. *)
Lemma repetition_sample_constant (b q : Z) (N : N) s :
  constant_latencies env b q →
  repetition_sample env N s →
  s = (seconds env b, amortized_seconds env N (replicate (N.to_nat N) q)).
Proof.
  intros [Hb Hq] (index & tb & ts & _ & [h ->] & Hlen & Hts & ->).
  rewrite Hb. do 2 f_equal. symmetry.
  apply replicate_as_Forall. split; [exact Hlen |].
  eapply Forall_impl; [exact Hts |].
  intros t (p & h' & ->). simpl. symmetry. apply Hq.
Qed.

(** A repetition over no points measures a NaN per query. *)
Lemma repetition_sample_empty s :
  repetition_sample env 0 s → s.2 = b_nan.
Proof.
  intros (index & tb & ts & _ & _ & Hlen & _ & ->).
  apply nil_length_inv in Hlen as ->. simpl.
  apply (b_div_zero_zero (double_of_Z (CLOCKS_PER_SEC env))).
Qed.

Lemma average_nan (ss : list double) (R : N) :
  length ss = N.to_nat R → Forall (λ s, s = b_nan) ss → average ss R = b_nan.
Proof.
  intros Hlen Hall. unfold average.
  destruct ss as [|s ss].
  - simpl in Hlen. assert (R = 0%N) as -> by lia. reflexivity.
  - rewrite (foldl_add_all_nan (s :: ss) _ ltac:(discriminate) Hall).
    reflexivity.
Qed.
End Aggregation.


Lemma stub_env_constant (draw : nat → Z) (b q : Z) :
  constant_latencies (stub_env draw b q) b q.
Proof.
  split; intros; simpl; unfold stub_ticks; rewrite last_snoc; reflexivity.
Qed.



(** ** The empty cloud *)




(** ** The whole run *)

Section Run.
Context {T : Type} `{Numeric T}.
Variable env : Env T.

(** The state in which the sweep starts: the generator was seeded from
    the time of day. *)
Lemma srand_returns s (w : world T) :
  ∃ w1, srand s w = (Normal tt, w1) ∧ out w1 = out w.
Proof. eexists. split; reflexivity. Qed.

Lemma run_returns (plotCount : nat) (Ns nReps : list N) (w : world T) :
  no_fault env →
  ∃ buildTime queryTime w1 w',
    (srand (time_now env) w).2 = w1
    ∧ (sweep env plotCount Ns nReps w1).1 = Normal (buildTime, queryTime)
    ∧ length buildTime = plotCount ∧ length queryTime = plotCount
    ∧ run env plotCount Ns nReps w = (Normal 0, w')
    ∧ out w' = String.append (out w) (report_text env buildTime queryTime).
Proof.
  intros Hlib.
  destruct (srand_returns (time_now env) w) as (w1 & Hsrand & Hout1).
  destruct (sweep_lengths env Hlib plotCount Ns nReps w1)
    as (buildTime & queryTime & w2 & Hsweep & Hout2 & Hlb & Hlq).
  exists buildTime, queryTime, w1, (written w2 (report_text env buildTime queryTime)).
  split; [rewrite Hsrand; reflexivity |].
  split; [rewrite Hsweep; reflexivity |].
  split; [exact Hlb |]. split; [exact Hlq |].
  split.
  - unfold run.
    rewrite (bind_returns (time_ env) _ w (time_now env) w eq_refl).
    rewrite (bind_returns _ _ _ _ _ Hsrand).
    rewrite (bind_returns _ _ _ _ _ Hsweep).
    rewrite (bind_returns _ _ _ _ _ (report_returns env buildTime queryTime w2)).
    reflexivity.
  - simpl. rewrite Hout2, Hout1. reflexivity.
Qed.

(** Whatever the environment does, a run that returns returns 0. *)
Lemma run_status (plotCount : nat) (Ns nReps : list N) (w : world T) status :
  (run env plotCount Ns nReps w).1 = Normal status → status = 0.
Proof.
  unfold run, mbind, M_bind.
  destruct (time_ env w) as [[t|e] w0]; [| discriminate].
  destruct (srand t w0) as [[[]|e] w1]; [| discriminate].
  destruct (sweep env plotCount Ns nReps w1) as [[[bt qt]|e] w2]; [| discriminate].
  destruct (report env bt qt w2) as [[[]|e] w3]; [| discriminate].
  simpl. intros [= <-]. reflexivity.
Qed.
End Run.



(** C8. Whenever the program runs the compiled-in sweep to completion it
    returns the status 0, which indicates success: it does so for every
    environment whose index library does not raise, and no run of [main]
    returns any other status (a run that does not return ends by an
    exception that [main] does not catch). *)
Theorem main_exit_status (env : Env float) (w : world float) :
  (no_fault env → (main env w).1 = Normal 0)
  ∧ (∀ status, (main env w).1 = Normal status → status = 0).
Proof.
  split.
  - intros Hlib.
    destruct (run_returns env plotCount Ns nReps w Hlib)
      as (bt & qt & w1 & w' & _ & _ & _ & _ & Hrun & _).
    unfold main. rewrite Hrun. reflexivity.
  - intros status. apply run_status.
Qed.

Lemma main_exit_status_witness :
  (main (stub_env (λ j, Z.of_nat j) 40 7) start).1 = Normal 0.
Proof.
  apply (main_exit_status (stub_env (λ j, Z.of_nat j) 40 7) start).
  intros h. reflexivity.
Defined.

(** * Further properties *)

(** ** The distance function in floating point *)

Section DistanceFacts.
Context {prec emax : Z}.
Implicit Types a b : binary prec emax.

Lemma binary_round_aux_sign s m e l :
  sf_sign_is s (binary_round_aux prec emax s m e l).
Proof.
  unfold binary_round_aux.
  destruct (shr_fexp prec emax m e l) as [mrs' e'].
  destruct (shr_fexp prec emax _ e' loc_Exact) as [mrs'' e''].
  destruct (shr_m mrs''); simpl; [reflexivity | | exact I].
  destruct (Z.leb e'' (emax - prec)); reflexivity.
Qed.

Lemma binary_round_aux_opp s m e l :
  binary_round_aux prec emax (negb s) m e l
  = SFopp (binary_round_aux prec emax s m e l).
Proof.
  unfold binary_round_aux.
  destruct (shr_fexp prec emax m e l) as [mrs' e'].
  destruct (shr_fexp prec emax _ e' loc_Exact) as [mrs'' e''].
  destruct (shr_m mrs''); simpl; [reflexivity | | reflexivity].
  destruct (Z.leb e'' (emax - prec)); reflexivity.
Qed.

Lemma binary_round_sign s m e : sf_sign_is s (binary_round prec emax s m e).
Proof.
  unfold binary_round. destruct (shl_align m e _) as [mz ez].
  apply binary_round_aux_sign.
Qed.

Lemma binary_round_opp s m e :
  binary_round prec emax (negb s) m e = SFopp (binary_round prec emax s m e).
Proof.
  unfold binary_round. destruct (shl_align m e _) as [mz ez].
  apply binary_round_aux_opp.
Qed.

(** A square carries no sign. *)
Lemma SFmul_square_sign x : sf_sign_is false (SFmul prec emax x x).
Proof.
  destruct x as [s | s | | s m e]; simpl; try exact I.
  - destruct s; reflexivity.
  - destruct s; reflexivity.
  - replace (xorb s s) with false by (destruct s; reflexivity).
    apply binary_round_aux_sign.
Qed.

(** Neither does a sum of numbers that carry none. *)
Lemma SFadd_sign x y :
  sf_sign_is false x → sf_sign_is false y →
  sf_sign_is false (SFadd prec emax x y).
Proof.
  destruct x as [sx | sx | | sx mx ex], y as [sy | sy | | sy my ey];
    simpl; intros Hx Hy; subst; try exact I; try reflexivity.
  destruct (shl_align mx ex (Z.min ex ey)) as [ax ?].
  destruct (shl_align my ey (Z.min ex ey)) as [ay ?].
  simpl. apply binary_round_sign.
Qed.

Lemma binary_normalize_opp v e :
  binary_normalize prec emax (- v) e false
  = SFopp (binary_normalize prec emax v e false)
  ∨ v = 0.
Proof.
  destruct v as [|d|d]; [right; reflexivity | left | left]; simpl.
  - exact (binary_round_opp false d e).
  - rewrite <- (binary_round_opp true d e). reflexivity.
Qed.

(** Swapping the operands of a difference flips its sign, unless both
    differences are the positive zero. *)
Lemma SFsub_swap x y :
  SFsub prec emax y x = SFopp (SFsub prec emax x y)
  ∨ (SFsub prec emax x y = S754_zero false ∧ SFsub prec emax y x = S754_zero false).
Proof.
  destruct x as [sx | sx | | sx mx ex], y as [sy | sy | | sy my ey].
  16: {
    unfold SFsub. cbv zeta. rewrite (Z.min_comm ey ex).
    set (A := cond_Zopp sx (Z.pos (shl_align mx ex (ex `min` ey)).1)).
    set (B := cond_Zopp sy (Z.pos (shl_align my ey (ex `min` ey)).1)).
    replace (B - A) with (- (A - B)) by lia.
    destruct (binary_normalize_opp (A - B) (ex `min` ey)) as [Hopp | Hzero].
    - left. exact Hopp.
    - right. rewrite Hzero. split; reflexivity. }
  all: try (destruct sx); try (destruct sy); simpl; auto.
Qed.

Lemma SFmul_opp_square x :
  SFmul prec emax (SFopp x) (SFopp x) = SFmul prec emax x x.
Proof. destruct x as [[] | [] | | [] m e]; reflexivity. Qed.

Lemma squared_difference_swap a b :
  squared_difference a b = squared_difference b a.
Proof.
  unfold squared_difference. simpl. unfold b_mul, b_sub. simpl. f_equal.
  destruct (SFsub_swap (bits a) (bits b)) as [Hopp | [H1 H2]].
  - rewrite Hopp. symmetry. apply SFmul_opp_square.
  - rewrite H1, H2. reflexivity.
Qed.

(** The difference of a finite number and itself is the positive zero. *)
Lemma SFsub_diag x :
  match x with S754_zero _ | S754_finite _ _ _ => True | _ => False end →
  SFsub prec emax x x = S754_zero false.
Proof.
  destruct x as [[] | | | s m e]; simpl; intros Hx; try contradiction;
    try reflexivity.
  rewrite Z.sub_diag. reflexivity.
Qed.
End DistanceFacts.

(** X1. In every binary format the distance function never returns a
    negative number, whatever the coordinates are (infinities and NaNs
    included): the result is a NaN or has a clear sign bit, so it never
    compares below zero. *)
Theorem kdtree_distance_never_negative {prec emax : Z}
    (c : PointCloud (binary prec emax)) (p1 : list (binary prec emax))
    (idx_p2 : nat) (size : N) :
  never_negative (kdtree_distance c p1 idx_p2 size)
  ∧ b_ltb (kdtree_distance c p1 idx_p2 size) b_zero = false.
Proof.
  assert (Hsign : never_negative (kdtree_distance c p1 idx_p2 size)).
  { unfold never_negative, kdtree_distance. simpl.
    apply SFadd_sign; [apply SFadd_sign |]; apply SFmul_square_sign. }
  split; [exact Hsign |].
  unfold never_negative in Hsign. unfold b_ltb, SFltb.
  destruct (bits (kdtree_distance c p1 idx_p2 size)) as [s | s | | s m e];
    simpl in *; subst; reflexivity.
Qed.



(** X3. The distance from the coordinates of a stored point to that
    point itself is the positive zero, provided its coordinates are
    finite (for an infinite or NaN coordinate it is a NaN, as the
    example after the theorem shows). *)
Theorem kdtree_distance_to_itself {prec emax : Z}
    (c : PointCloud (binary prec emax)) (i : nat) (size : N)
    (p : Point (binary prec emax)) :
  pts c !! i = Some p →
  b_finite (x p) = true → b_finite (y p) = true → b_finite (z p) = true →
  kdtree_distance c [x p; y p; z p] i size = b_zero.
Proof.
  intros Hp Hx Hy Hz. unfold kdtree_distance.
  rewrite (list_lookup_total_correct _ _ _ Hp).
  change ([x p; y p; z p] !!! 0%nat) with (x p).
  change ([x p; y p; z p] !!! 1%nat) with (y p).
  change ([x p; y p; z p] !!! 2%nat) with (z p).
  simpl. unfold b_add, b_mul, b_sub, b_zero. simpl.
  unfold b_finite in Hx, Hy, Hz.
  rewrite !SFsub_diag.
  - reflexivity.
  - destruct (bits (z p)); try discriminate; exact I.
  - destruct (bits (y p)); try discriminate; exact I.
  - destruct (bits (x p)); try discriminate; exact I.
Qed.

Lemma kdtree_distance_to_itself_witness :
  let p : Point float := {| x := b_of_Z 1; y := b_of_Z 2; z := b_of_Z 3 |} in
  kdtree_distance {| pts := [p] |} [x p; y p; z p] 0 3 = b_zero.
Proof.
  intros p.
  apply (kdtree_distance_to_itself {| pts := [p] |} 0 3 p); reflexivity.
Defined.

Example kdtree_distance_to_infinite_point :
  let p : Point float :=
    {| x := Bin (S754_infinity false); y := b_of_Z 2; z := b_of_Z 3 |} in
  kdtree_distance {| pts := [p] |} [x p; y p; z p] 0 3 = b_nan.
Proof. reflexivity. Qed.

(** ** More on the generator *)

Section GeneratorFacts.
Context {T : Type} `{Numeric T}.

(** The generator reads a draw through its residue modulo 1000 only. *)
Lemma coordinate_residue (max_range : T) (r : Z) :
  0 ≤ r → coordinate max_range r = coordinate max_range (r mod 1000).
Proof.
  intros Hr. unfold coordinate.
  rewrite (Z.rem_mod_nonneg r 1000) by lia.
  rewrite (Z.rem_small (r mod 1000) 1000); [reflexivity |].
  apply Z.mod_pos_bound. lia.
Qed.

Lemma cloud_of_draws_coordinates (max_range : T) d1 d2 n :
  (∀ j, (j < 3 * n)%nat → coordinate max_range (d1 j) = coordinate max_range (d2 j)) →
  cloud_of_draws max_range d1 n = cloud_of_draws max_range d2 n.
Proof.
  intros Hd. unfold cloud_of_draws. f_equal.
  apply list_fmap_ext. intros k i Hi.
  apply lookup_seq in Hi as [-> Hi]. simpl.
  unfold point_of_draws. rewrite !Hd by lia. reflexivity.
Qed.
End GeneratorFacts.


(** X5. The generator sees a draw only through its residue modulo 1000:
    two runs whose next [3 N] draws are non-negative and pairwise
    congruent modulo 1000 return the same cloud. *)
Theorem generate_reads_residues {T : Type} `{Numeric T} (env1 env2 : Env T)
    (N : N) (max_range : T) (w1 w2 : world T) :
  (∀ j, (j < 3 * N.to_nat N)%nat →
     0 ≤ next_draw env1 w1 j ∧ 0 ≤ next_draw env2 w2 j
     ∧ next_draw env1 w1 j mod 1000 = next_draw env2 w2 j mod 1000) →
  (generateRandomPointCloud env1 N max_range w1).1
  = (generateRandomPointCloud env2 N max_range w2).1.
Proof.
  intros Hdraws. rewrite !generate_returns. simpl. f_equal.
  apply cloud_of_draws_coordinates. intros j Hj.
  destruct (Hdraws j Hj) as (H1 & H2 & Hmod).
  rewrite (coordinate_residue _ _ H1), (coordinate_residue _ _ H2), Hmod.
  reflexivity.
Qed.

Lemma generate_reads_residues_witness :
  let env1 := stub_env (λ j, 7 * Z.of_nat j) 0 0 in
  let env2 := stub_env (λ j, 7 * Z.of_nat j + 1000 * Z.of_nat (S j)) 0 0 in
  (generateRandomPointCloud env1 2 default_max_range start).1
  = (generateRandomPointCloud env2 2 default_max_range start).1.
Proof.
  intros env1 env2.
  apply (generate_reads_residues env1 env2 2 default_max_range start start).
  intros j Hj.
  do 6 (destruct j as [|j]; [repeat split; vm_compute; congruence |]).
  simpl in Hj. lia.
Defined.

(** The order of the grid of the default range. *)
Lemma strictly_increasing_lookup (l : list float) :
  strictly_increasing l = true →
  ∀ i j a b, l !! i = Some a → l !! j = Some b → (i < j)%nat →
    b_ltb a b = true.
Proof.
  induction l as [|c l IH]; intros Hinc i j a b Ha Hb Hij.
  - rewrite lookup_nil in Ha. discriminate.
  - simpl in Hinc. apply andb_prop in Hinc as [Hc Hl].
    destruct j as [|j]; [lia |]. simpl in Hb.
    destruct i as [|i].
    + simpl in Ha. injection Ha as ->.
      rewrite forallb_forall in Hc. apply Hc.
      apply list_elem_of_In. eapply list_elem_of_lookup_2. exact Hb.
    + simpl in Ha. apply (IH Hl i j); [exact Ha | exact Hb | lia].
Qed.

Lemma default_grid_increasing : strictly_increasing default_grid = true.
Proof. vm_compute. reflexivity. Qed.

Lemma default_grid_lookup (r : Z) :
  0 ≤ r →
  default_grid !! Z.to_nat (r mod 1000)
  = Some (coordinate default_max_range r).
Proof.
  intros Hr.
  assert (Hk : 0 ≤ r mod 1000 < 1000) by (apply Z.mod_pos_bound; lia).
  rewrite (coordinate_residue _ r Hr).
  unfold default_grid. rewrite list_lookup_fmap.
  rewrite lookup_seq_lt by lia.
  change (Some (coordinate (default_max_range : float)
                  (Z.of_nat (0 + Z.to_nat (r mod 1000))))
          = Some (coordinate default_max_range (r mod 1000))).
  do 2 f_equal. lia.
Qed.

(** X6. For the default range 10 in single precision the coordinate
    grows strictly with the residue of the draw: of two non-negative
    draws, the one with the smaller residue modulo 1000 gives the smaller
    coordinate. So the generator has exactly 1000 different coordinates,
    and two draws give the same one only if they are congruent. *)
Theorem coordinate_increases_with_residue (r1 r2 : Z) :
  0 ≤ r1 → 0 ≤ r2 → r1 mod 1000 < r2 mod 1000 →
  b_ltb (coordinate (default_max_range : float) r1)
        (coordinate default_max_range r2) = true.
Proof.
  intros H1 H2 Hlt.
  assert (Hk1 : 0 ≤ r1 mod 1000 < 1000) by (apply Z.mod_pos_bound; lia).
  apply (strictly_increasing_lookup default_grid default_grid_increasing
           (Z.to_nat (r1 mod 1000)) (Z.to_nat (r2 mod 1000))).
  - apply default_grid_lookup. exact H1.
  - apply default_grid_lookup. exact H2.
  - lia.
Qed.

Lemma coordinate_increases_with_residue_witness :
  b_ltb (coordinate (default_max_range : float) 2999)
        (coordinate default_max_range 1000) = false
  ∧ b_ltb (coordinate (default_max_range : float) 1000)
          (coordinate default_max_range 2999) = true.
Proof.
  split; [reflexivity |].
  apply (coordinate_increases_with_residue 1000 2999); vm_compute; congruence.
Defined.

Lemma zero_range_check_all : forallb zero_range_check (seq 0 1000) = true.
Proof. vm_compute. reflexivity. Qed.



(** ** Outcomes: what the harness does whatever the library does *)

Section Triples.
Context {T : Type}.

Lemma triple_ret {A : Type} (a : A) (P : world T → Prop) Q E :
  (∀ w, P w → Q a w) → triple P (mret a) Q E.
Proof. intros HQ w HP. simpl. apply HQ. exact HP. Qed.

Lemma triple_bind {A B : Type} (P : world T → Prop) (m : M T A)
    (f : A → M T B) Q R E :
  triple P m Q E → (∀ a, triple (Q a) (f a) R E) → triple P (m ≫= f) R E.
Proof.
  intros Hm Hf w HP. specialize (Hm w HP). unfold mbind, M_bind.
  destruct (m w) as [[a | e] w1]; [exact (Hf a w1 Hm) | exact Hm].
Qed.

Lemma triple_conseq {A : Type} (P P' : world T → Prop) (m : M T A)
    (Q Q' : A → world T → Prop) E :
  (∀ w, P' w → P w) → triple P m Q E → (∀ a w, Q a w → Q' a w) →
  triple P' m Q' E.
Proof.
  intros HP Hm HQ w HP'. specialize (Hm w (HP w HP')).
  destruct (m w) as [[a | e] w1]; [apply HQ; exact Hm | exact Hm].
Qed.

Lemma triple_pure {A : Type} (F : Prop) (P : world T → Prop) (m : M T A) Q E :
  (F → triple P m Q E) → triple (λ w, F ∧ P w) m Q E.
Proof. intros Hm w [HF HP]. exact (Hm HF w HP). Qed.

Lemma triple_any {A : Type} (m : M T A) :
  triple (λ _, True) m (λ _ _, True) (λ _ _, True).
Proof. intros w _. destruct (m w) as [[a | e] w1]; exact I. Qed.

(** The loop rule with an exceptional exit. *)
Lemma triple_for_from {St : Type} (I : nat → St → world T → Prop)
    (body : nat → St → M T St) E (n : nat) :
  ∀ i s,
    (∀ k s1, (i ≤ k < i + n)%nat → triple (I k s1) (body k s1) (I (S k)) E) →
    triple (I i s) (for_from i n body s) (I (i + n)%nat) E.
Proof.
  induction n as [|n IH]; intros i s Hbody w HI.
  - simpl. rewrite Nat.add_0_r. exact HI.
  - simpl. unfold mbind, M_bind.
    pose proof (Hbody i s ltac:(lia) w HI) as Hstep.
    destruct (body i s w) as [[s1 | e] w1]; [| exact Hstep].
    replace (i + S n)%nat with (S i + n)%nat by lia.
    apply (IH (S i) s1); [| exact Hstep].
    intros k s2 Hk. apply Hbody. lia.
Qed.

(** A loop of [n + m] rounds is a loop of [n] rounds followed by one of
    [m] rounds. *)
Lemma for_from_app {St : Type} (body : nat → St → M T St) (m n : nat) :
  ∀ i s w,
    for_from i (n + m) body s w
    = (for_from i n body s ≫= for_from (i + n) m body) w.
Proof.
  induction n as [|n IH]; intros i s w.
  - simpl. unfold mbind, M_bind, mret, M_ret. rewrite Nat.add_0_r. reflexivity.
  - simpl. unfold mbind, M_bind.
    destruct (body i s w) as [[s1 | e] w1]; [| reflexivity].
    rewrite IH. unfold mbind, M_bind.
    replace (i + S n)%nat with (S i + n)%nat by lia. reflexivity.
Qed.

Lemma count_events_app (p : event T → bool) h1 h2 :
  count_events p (h1 ++ h2) = (count_events p h1 + count_events p h2)%nat.
Proof. unfold count_events. rewrite List.filter_app, length_app. reflexivity. Qed.

Lemma count_events_one (p : event T → bool) e :
  count_events p [e] = if p e then 1%nat else 0%nat.
Proof. unfold count_events. simpl. destruct (p e); reflexivity. Qed.

Lemma count_events_rands (p : event T → bool) (f : nat → Z) l :
  (∀ r, p (EvRand r) = false) →
  count_events p (map (λ j, EvRand (f j)) l) = 0%nat.
Proof.
  intros Hp. induction l as [|j l IH]; [reflexivity |].
  unfold count_events in *. simpl. rewrite Hp. exact IH.
Qed.

Lemma accounted_refl (w : world T) : accounted w w 0 0 0.
Proof. unfold accounted. repeat split; lia. Qed.

Lemma accounted_extend (w0 w1 w2 : world T) a b c a' b' c' :
  accounted w0 w1 a b c → accounted w1 w2 a' b' c' →
  accounted w0 w2 (a + a') (b + b') (c + c').
Proof.
  unfold accounted.
  intros (Hs & Ho & Hr & Hn & Hb & Hq) (Hs' & Ho' & Hr' & Hn' & Hb' & Hq').
  repeat split; try congruence; lia.
Qed.

Lemma accounted_eq (w0 w : world T) a b c a' b' c' :
  accounted w0 w a b c → a = a' → b = b' → c = c' → accounted w0 w a' b' c'.
Proof. intros Hacc -> -> ->. exact Hacc. Qed.
End Triples.

Section Accounting.
Context {T : Type} `{Numeric T}.
Variable env : Env T.
Variable w0 : world T.

Lemma accounted_after_draws (w : world T) k :
  accounted w (after_draws env w k) k 0 0.
Proof.
  unfold accounted, after_draws. simpl.
  rewrite !count_events_app, !count_events_rands by reflexivity.
  repeat split; lia.
Qed.

Lemma generate_accounted (N : N) (max_range : T) a b c :
  triple (λ w, accounted w0 w a b c)
    (generateRandomPointCloud env N max_range)
    (λ _ w, accounted w0 w (a + 3 * N.to_nat N) b c)
    (raised_by_library env w0).
Proof.
  intros w Hacc. rewrite generate_returns.
  eapply accounted_eq;
    [exact (accounted_extend _ _ _ _ _ _ _ _ _ Hacc (accounted_after_draws w _))
    | lia ..].
Qed.

Lemma clock_accounted a b c :
  triple (λ w, accounted w0 w a b c) clock
    (λ _ w, accounted w0 w a b c) (raised_by_library env w0).
Proof.
  intros w Hacc. simpl.
  assert (Hstep : accounted w (log (EvClock (now w)) w) 0 0 0).
  { unfold accounted, log. simpl.
    rewrite !count_events_app, !count_events_one. simpl.
    repeat split; lia. }
  eapply accounted_eq; [exact (accounted_extend _ _ _ _ _ _ _ _ _ Hacc Hstep) | lia ..].
Qed.

Lemma lib_call_accounted (e : event T) a b c :
  is_srand e = false →
  triple (λ w, accounted w0 w a b c) (lib_call env e)
    (λ _ w, accounted w0 w a (b + count_events is_build [e])
                            (c + count_events is_query [e]))
    (raised_by_library env w0).
Proof.
  intros He w Hacc. unfold lib_call. cbv zeta.
  destruct (lib_fault env (trace w ++ [e])) as [ex |] eqn:Hfault.
  - destruct Hacc as (Hs & Ho & _). unfold raised_by_library. simpl. auto.
  - set (w' := {| seed := seed w; rand_pos := rand_pos w;
                  now := now w + lib_ticks env (trace w ++ [e]);
                  trace := trace w ++ [e]; out := out w |}).
    assert (Hstep : accounted w w' 0 (count_events is_build [e])
                      (count_events is_query [e])).
    { unfold accounted, w'. simpl. rewrite !count_events_app.
      rewrite (count_events_one is_srand), He.
      repeat split; lia. }
    eapply accounted_eq;
      [exact (accounted_extend _ _ _ _ _ _ _ _ _ Hacc Hstep) | lia | reflexivity ..].
Qed.

Ltac count_lia :=
  rewrite ?count_events_one; cbn [is_build is_query is_srand]; lia.

(** One repetition, whatever the library does. *)
Lemma kdtree_demo_accounted (N : N) (timers : double * double) a b c :
  triple (λ w, accounted w0 w a b c) (kdtree_demo env N timers)
    (λ _ w, accounted w0 w (a + 6 * N.to_nat N) (b + 1) (c + N.to_nat N))
    (raised_by_library env w0).
Proof.
  destruct timers as [buildTimer queryTimer]. unfold kdtree_demo.
  eapply triple_bind; [apply generate_accounted | intros cloudS].
  eapply triple_bind; [apply generate_accounted | intros cloudT].
  eapply triple_bind; [apply clock_accounted | intros begin_]. cbv zeta.
  eapply triple_bind; [apply lib_call_accounted; reflexivity | intros []].
  eapply triple_bind; [apply clock_accounted | intros end_].
  eapply triple_bind.
  - unfold for_loop.
    eapply triple_conseq;
      [| apply (triple_for_from
                  (λ k (_ : double) w,
                     accounted w0 w (a + 6 * N.to_nat N) (b + 1) (c + k))) |].
    + intros w Hacc. eapply accounted_eq; [exact Hacc | count_lia ..].
    + intros k elapsed_secs _. cbv zeta.
      eapply triple_bind; [apply clock_accounted | intros t1].
      eapply triple_bind; [apply lib_call_accounted; reflexivity | intros []].
      eapply triple_bind; [apply clock_accounted | intros t2].
      apply triple_ret. intros w Hacc.
      eapply accounted_eq; [exact Hacc | count_lia ..].
    + intros elapsed_secs w Hacc. exact Hacc.
  - intros elapsed_secs. cbv zeta. apply triple_ret. intros w Hacc.
    eapply accounted_eq; [exact Hacc | lia ..].
Qed.

(** The repetitions of one size. *)
Lemma repetitions_accounted (N : N) (R : nat) (init : double * double) a b c :
  triple (λ w, accounted w0 w a b c)
    (for_loop R (λ repets timers, kdtree_demo env N timers) init)
    (λ _ w, accounted w0 w (a + 6 * (N.to_nat N * R)) (b + R) (c + N.to_nat N * R))
    (raised_by_library env w0).
Proof.
  unfold for_loop.
  eapply triple_conseq;
    [| apply (triple_for_from
                (λ k (_ : double * double) w,
                   accounted w0 w (a + 6 * (N.to_nat N * k)) (b + k)
                     (c + N.to_nat N * k))) |].
  - intros w Hacc. eapply accounted_eq; [exact Hacc | lia ..].
  - intros k timers _.
    eapply triple_conseq; [| apply kdtree_demo_accounted |].
    + intros w Hacc. exact Hacc.
    + intros t w Hacc. eapply accounted_eq; [exact Hacc | lia ..].
  - intros timers w Hacc. exact Hacc.
Qed.

(** The sweep. *)
Lemma sweep_accounted (plotCount : nat) (Ns nReps : list N) a b c :
  triple (λ w, accounted w0 w a b c) (sweep env plotCount Ns nReps)
    (λ series w,
       length series.1 = plotCount ∧ length series.2 = plotCount
       ∧ accounted w0 w
           (a + 6 * N.to_nat (points_swept Ns nReps plotCount))
           (b + N.to_nat (repetitions_swept nReps plotCount))
           (c + N.to_nat (points_swept Ns nReps plotCount)))
    (raised_by_library env w0).
Proof.
  unfold sweep, for_loop.
  eapply triple_conseq;
    [| apply (triple_for_from
                (λ k (series : list double * list double) w,
                   length series.1 = k ∧ length series.2 = k
                   ∧ accounted w0 w
                       (a + 6 * N.to_nat (points_swept Ns nReps k))
                       (b + N.to_nat (repetitions_swept nReps k))
                       (c + N.to_nat (points_swept Ns nReps k)))) |].
  - intros w Hacc. split; [reflexivity |]. split; [reflexivity |].
    eapply accounted_eq; [exact Hacc | simpl; lia ..].
  - intros k [buildTime queryTime] _. cbn [fst snd].
    apply triple_pure. intros Hlb. apply triple_pure. intros Hlq.
    eapply triple_bind; [apply repetitions_accounted |].
    intros [buildTimer queryTimer]. cbv zeta.
    apply triple_ret. intros w Hacc. cbn [fst snd].
    rewrite !length_app, Hlb, Hlq. simpl length.
    split; [lia |]. split; [lia |].
    eapply accounted_eq; [exact Hacc | simpl points_swept; simpl repetitions_swept; lia ..].
  - intros series w Hpost. exact Hpost.
Qed.

(** The sweep from any state: on return it has made [6 * sum Ns[i] *
    nReps[i]] draws, [sum nReps[i]] builds and [sum Ns[i] * nReps[i]]
    queries; an exception comes from the library. *)
Lemma sweep_outcome (plotCount : nat) (Ns nReps : list N) :
  match sweep env plotCount Ns nReps w0 with
  | (Normal (buildTime, queryTime), w') =>
      length buildTime = plotCount ∧ length queryTime = plotCount
      ∧ accounted w0 w'
          (6 * N.to_nat (points_swept Ns nReps plotCount))
          (N.to_nat (repetitions_swept nReps plotCount))
          (N.to_nat (points_swept Ns nReps plotCount))
  | (Raise e, w') => raised_by_library env w0 e w'
  end.
Proof.
  pose proof (sweep_accounted plotCount Ns nReps 0 0 0 w0 (accounted_refl w0))
    as Hsweep.
  destruct (sweep env plotCount Ns nReps w0) as [[[buildTime queryTime] | e] w'];
    exact Hsweep.
Qed.
End Accounting.





(** The two ways a run can end. *)
Lemma run_outcome {T : Type} `{Numeric T} (env : Env T)
    (plotCount : nat) (Ns nReps : list N) (w : world T) :
  match run env plotCount Ns nReps w with
  | (Normal status, w') =>
      status = 0
      ∧ seed w' = time_now env
      ∧ count_events is_srand (trace w') = S (count_events is_srand (trace w))
      ∧ rand_pos w' = (6 * N.to_nat (points_swept Ns nReps plotCount))%nat
      ∧ ∃ buildTime queryTime,
          length buildTime = plotCount ∧ length queryTime = plotCount
          ∧ out w' = String.append (out w) (report_text env buildTime queryTime)
  | (Raise e, w') =>
      out w' = out w ∧ seed w' = time_now env
      ∧ lib_fault env (trace w') = Some e
  end.
Proof.
  unfold run.
  rewrite (bind_returns (time_ env) _ w (time_now env) w eq_refl).
  set (w1 := {| seed := time_now env; rand_pos := 0; now := now w;
                trace := trace w ++ [EvSrand (time_now env)]; out := out w |}).
  rewrite (bind_returns (srand (time_now env)) _ w tt w1 eq_refl).
  pose proof (sweep_outcome env w1 plotCount Ns nReps) as Hsweep.
  unfold mbind at 1. unfold M_bind.
  destruct (sweep env plotCount Ns nReps w1)
    as [[[buildTime queryTime] | e] w2].
  - destruct Hsweep as (Hlb & Hlq & Hs & Ho & Hr & Hn & _).
    rewrite (bind_returns _ _ _ _ _ (report_returns env buildTime queryTime w2)).
    simpl. split; [reflexivity |]. split; [exact Hs |].
    split.
    { rewrite Hn. simpl. rewrite count_events_app, count_events_one. simpl. lia. }
    split; [rewrite Hr; reflexivity |].
    exists buildTime, queryTime. rewrite Ho. auto.
  - destruct Hsweep as (Hs & Ho & Hfault). auto.
Qed.


(** The sweep compiled into [main], when it completes, has made
    27 396 000 draws. *)
Example main_draws (env : Env float) (w : world float) :
  match main env w with
  | (Normal _, w') => N.of_nat (rand_pos w') = 27396000%N
  | (Raise _, _) => True
  end.
Proof.
  pose proof (run_outcome env plotCount Ns nReps w) as Hrun.
  unfold main. destruct (run env plotCount Ns nReps w) as [[status | e] w'];
    [| exact I].
  destruct Hrun as (_ & _ & _ & Hr & _). rewrite Hr.
  rewrite Nat2N.inj_mul, N2Nat.id. reflexivity.
Qed.



Lemma sweep_unfold {T : Type} `{Numeric T} (env : Env T) (plotCount : nat)
    (Ns nReps : list N) :
  sweep env plotCount Ns nReps
  = for_from 0 plotCount (sweep_round env Ns nReps) ([], []).
Proof. reflexivity. Qed.

Lemma for_from_prefix {T St : Type} (body : nat → St → M T St) (k m i : nat)
    (s : St) (w : world T) :
  match for_from i k body s w with
  | (Normal s1, w1) =>
      for_from i (k + m) body s w = for_from (i + k) m body s1 w1
  | (Raise e, w1) => for_from i (k + m) body s w = (Raise e, w1)
  end.
Proof.
  rewrite for_from_app. unfold mbind, M_bind.
  destruct (for_from i k body s w) as [[s1 | e] w1]; reflexivity.
Qed.

(** Later rounds only append to the two series. *)
Lemma sweep_rounds_append {T : Type} `{Numeric T} (env : Env T)
    (Ns nReps : list N) (buildTime queryTime : list double) (m i : nat) :
  triple (λ _, True)
    (for_from i m (sweep_round env Ns nReps) (buildTime, queryTime))
    (λ series _, ∃ bs qs, series = (buildTime ++ bs, queryTime ++ qs))
    (λ _ _, True).
Proof.
  eapply triple_conseq;
    [| apply (triple_for_from
                (λ _ (series : list double * list double) (_ : world T),
                   ∃ bs qs, series = (buildTime ++ bs, queryTime ++ qs))) |].
  - intros w _. exists [], []. rewrite !app_nil_r. reflexivity.
  - intros j [bt qt] _ w (bs & qs & [= -> ->]).
    unfold sweep_round, mbind, M_bind.
    destruct (for_loop (N.to_nat (nReps !!! j))
                (λ repets timers, kdtree_demo env (Ns !!! j) timers)
                (double_of_Z 0, double_of_Z 0) w) as [[[t1 t2] | e] w1];
      [| exact I].
    simpl.
    exists (bs ++ [t1 /d double_of_size (nReps !!! j)]),
           (qs ++ [t2 /d double_of_size (nReps !!! j)]).
    rewrite <- !app_assoc. reflexivity.
  - intros series w Hpost. exact Hpost.
Qed.

(** X13. The results for the first sizes do not depend on the sizes
    that follow: if the sweep over the first [k] sizes ends by an
    exception, so does, in the same state, the sweep over [k + m] sizes;
    if it returns two series, they are the first [k] entries of the
    series the longer sweep returns, when that one returns. *)
Theorem sweep_prefix {T : Type} `{Numeric T} (env : Env T)
    (k m : nat) (Ns nReps : list N) (w : world T) :
  match sweep env k Ns nReps w with
  | (Raise e, w1) => sweep env (k + m) Ns nReps w = (Raise e, w1)
  | (Normal (buildTime, queryTime), w1) =>
      match sweep env (k + m) Ns nReps w with
      | (Normal (buildTime', queryTime'), _) =>
          take k buildTime' = buildTime ∧ take k queryTime' = queryTime
      | (Raise _, _) => True
      end
  end.
Proof.
  pose proof (sweep_outcome env w k Ns nReps) as Hk.
  rewrite !sweep_unfold in *.
  pose proof (for_from_prefix (sweep_round env Ns nReps) k m 0 ([], []) w)
    as Hsplit.
  destruct (for_from 0 k (sweep_round env Ns nReps) ([], []) w)
    as [[[buildTime queryTime] | e] w1]; [| exact Hsplit].
  destruct Hk as (Hlb & Hlq & _).
  rewrite Hsplit.
  pose proof (sweep_rounds_append env Ns nReps buildTime queryTime m (0 + k)
                w1 I) as Hrest.
  destruct (for_from (0 + k) m (sweep_round env Ns nReps)
              (buildTime, queryTime) w1)
    as [[[buildTime' queryTime'] | e] w2]; [| exact I].
  destruct Hrest as (bs & qs & [= -> ->]).
  rewrite <- Hlb at 1. rewrite <- Hlq at 1.
  rewrite !take_app_length. auto.
Qed.
